(** * A shallow embedding of the project indexer and its watcher

    Source files covered: [src/indexer.js] (class [ProjectIndexer]) and the
    watcher script (class [ProjectWatcher]).

    Conventions of the embedding.
    - A JavaScript string is a [string]: a sequence of 8-bit code units.
    - A path is kept relative to [rootDir], with [/] as [path.sep], so that
      [path.relative(rootDir, path.join(rootDir, p))] is [p].
    - A [throw] is an [Err] result; [try]/[catch] is a match on the result.
    - [RegExp] is embedded as a backtracking matcher over a regex syntax
      tree; every regex literal of the source is transcribed as such a tree. *)

From Stdlib Require Import Ascii String List Bool Arith ZArith Lia.
From Stdlib Require Import Sorted Permutation.
From stdpp Require Import base option list strings gmap.
Import ListNotations.

Local Open Scope string_scope.
Local Open Scope list_scope.
Local Open Scope nat_scope.

Set Default Proof Using "Type".
Set Warnings "-register-all".

(* ===================================================================== *)
(** ** Outcomes of a run *)
(* ===================================================================== *)

(** [Ok a]: normal completion. [Err m]: an exception with message [m] is
    thrown. [Unmodelled]: the run reaches a part of the runtime that the
    embedding does not describe (named where it arises); nothing is claimed
    about such a run. *)
Inductive result (A : Type) : Type :=
| Ok (a : A)
| Err (message : string)
| Unmodelled.
Arguments Ok {A} a.
Arguments Err {A} message.
Arguments Unmodelled {A}.

Definition rbind {A B : Type} (r : result A) (f : A → result B) : result B :=
  match r with
  | Ok a => f a
  | Err e => Err e
  | Unmodelled => Unmodelled
  end.

Notation "x ←r e1 ;; e2" := (rbind e1 (fun x => e2))
  (at level 100, e1 at next level, right associativity).

(** [try { body } catch (error) { handler(error.message) }] *)
Definition tryCatch {A : Type} (body : result A) (handler : string → result A)
  : result A :=
  match body with
  | Ok a => Ok a
  | Err e => handler e
  | Unmodelled => Unmodelled
  end.

(* ===================================================================== *)
(** ** String primitives of the JavaScript runtime *)
(* ===================================================================== *)

Module Str.

Definition chr (n : nat) : ascii := ascii_of_nat n.
Definition dquote : ascii := chr 34.
Definition newline : ascii := chr 10.

Definition len (s : string) : nat := String.length s.

(** [s.startsWith(p)] *)
Fixpoint startsWith (p s : string) : bool :=
  match p, s with
  | EmptyString, _ => true
  | String a p', String b s' => Ascii.eqb a b && startsWith p' s'
  | String _ _, EmptyString => false
  end.

(** [s.includes(p)] *)
Fixpoint includes (p s : string) : bool :=
  startsWith p s ||
  match s with
  | EmptyString => false
  | String _ s' => includes p s'
  end.

(** [s.replace(/\*\*/g, to)]: leftmost, non-overlapping occurrences of two
    consecutive stars. *)
Fixpoint replaceStarStar (to s : string) : string :=
  match s with
  | String "*" (String "*" s') => to +:+ replaceStarStar to s'
  | String c s' => String c (replaceStarStar to s')
  | EmptyString => EmptyString
  end.

(** [s.replace(/\*/g, to)] *)
Fixpoint replaceStar (to s : string) : string :=
  match s with
  | String "*" s' => to +:+ replaceStar to s'
  | String c s' => String c (replaceStar to s')
  | EmptyString => EmptyString
  end.

(** [s.split(sep)] for a one-character separator: never the empty list. *)
Fixpoint split (sep : ascii) (s : string) : list string :=
  match s with
  | EmptyString => [EmptyString]
  | String c s' =>
      if Ascii.eqb c sep then EmptyString :: split sep s'
      else match split sep s' with
           | hd :: tl => String c hd :: tl
           | [] => [String c EmptyString]
           end
  end.

Definition isSpace (c : ascii) : bool :=
  let n := nat_of_ascii c in
  ((9 <=? n) && (n <=? 13)) || (n =? 32) || (n =? 160).

Fixpoint trimStart (s : string) : string :=
  match s with
  | String c s' => if isSpace c then trimStart s' else s
  | EmptyString => EmptyString
  end.

Fixpoint rev (acc s : string) : string :=
  match s with
  | EmptyString => acc
  | String c s' => rev (String c acc) s'
  end.

(** [s.trim()] *)
Definition trim (s : string) : string :=
  rev EmptyString (trimStart (rev EmptyString (trimStart s))).

(** Removal of every double quote, as the [replace] of the Go extractor does. *)
Fixpoint dropQuotes (s : string) : string :=
  match s with
  | String c s' =>
      if Ascii.eqb c dquote then dropQuotes s' else String c (dropQuotes s')
  | EmptyString => EmptyString
  end.

Definition isEmpty (s : string) : bool :=
  match s with EmptyString => true | _ => false end.

End Str.

(* ===================================================================== *)
(** ** Regular expressions *)
(* ===================================================================== *)

Module RegExp.

Definition charset := ascii → bool.

(** The syntax the program's regexes need. [Star true r] is the greedy
    [r*], [Star false r] the lazy [r*?]; [Bol] and [Eol] are [^] and [$]
    under the [m] flag. No regex of the program has a capture group under
    a quantifier that iterates more than once. *)
Inductive regex : Type :=
| Eps
| Chr (p : charset)
| Seq (r1 r2 : regex)
| Alt (r1 r2 : regex)
| Star (greedy : bool) (r : regex)
| Group (n : nat) (r : regex)
| Bol
| Eol.

Definition lit (c : ascii) : charset := Ascii.eqb c.
Definition isLineTerminator (c : ascii) : bool :=
  let n := nat_of_ascii c in (n =? 10) || (n =? 13).
(** [.] *)
Definition dot : charset := fun c => negb (isLineTerminator c).
(** [\s] and [\S] *)
Definition space : charset := Str.isSpace.
Definition nonSpace : charset := fun c => negb (Str.isSpace c).
Definition inRange (lo hi : nat) (c : ascii) : bool :=
  let n := nat_of_ascii c in (lo <=? n) && (n <=? hi).
Definition upper : charset := inRange 65 90.
Definition lower : charset := inRange 97 122.
Definition digit : charset := inRange 48 57.
(** [\w] *)
Definition word : charset :=
  fun c => upper c || lower c || digit c || lit "_" c.
(** [[abc]] and [[^abc]] *)
Definition oneOf (cs : list ascii) : charset :=
  fun c => existsb (Ascii.eqb c) cs.
Definition noneOf (cs : list ascii) : charset :=
  fun c => negb (existsb (Ascii.eqb c) cs).
(** [[\s\S]] *)
Definition anything : charset := fun _ => true.

(** Derived forms. *)
Definition Plus (r : regex) : regex := Seq r (Star true r).
Definition Opt (r : regex) : regex := Alt r Eps.
Fixpoint Lit (s : string) : regex :=
  match s with
  | EmptyString => Eps
  | String c EmptyString => Chr (lit c)
  | String c s' => Seq (Chr (lit c)) (Lit s')
  end.
Fixpoint Cat (rs : list regex) : regex :=
  match rs with
  | [] => Eps
  | [r] => r
  | r :: rs' => Seq r (Cat rs')
  end.
Fixpoint Any (rs : list regex) : regex :=
  match rs with
  | [] => Eps
  | [r] => r
  | r :: rs' => Alt r (Any rs')
  end.

(** A position of the matcher: the code unit before it (for [^]), the
    input still ahead, and the captures made so far. *)
Record mstate : Type := MState {
  before : option ascii;
  ahead : string;
  caps : list (nat * string)
}.

Fixpoint take (n : nat) (s : string) : string :=
  match n, s with
  | S n', String c s' => String c (take n' s')
  | _, _ => EmptyString
  end.

Definition capture (n : nat) (from to : mstate) : mstate :=
  let text := take (Str.len (ahead from) - Str.len (ahead to)) (ahead from) in
  MState (before to) (ahead to) ((n, text) :: caps to).

(** The backtracking matcher, in continuation-passing style as in the
    language standard: alternatives are tried in order, a greedy star
    prefers one more iteration, and an iteration that consumes nothing
    is rejected. *)
Fixpoint matchRe (r : regex) (k : mstate → option mstate) (st : mstate)
  : option mstate :=
  match r with
  | Eps => k st
  | Chr p =>
      match ahead st with
      | String c s' =>
          if p c then k (MState (Some c) s' (caps st)) else None
      | EmptyString => None
      end
  | Seq r1 r2 => matchRe r1 (matchRe r2 k) st
  | Alt r1 r2 =>
      match matchRe r1 k st with
      | Some e => Some e
      | None => matchRe r2 k st
      end
  | Star greedy r' =>
      (fix iterate (fuel : nat) (st : mstate) : option mstate :=
         match fuel with
         | O => k st
         | S fuel' =>
             let again :=
               matchRe r'
                 (fun st' =>
                    if Str.len (ahead st') <? Str.len (ahead st)
                    then iterate fuel' st' else None) st in
             if greedy then
               match again with Some e => Some e | None => k st end
             else
               match k st with Some e => Some e | None => again end
         end) (Str.len (ahead st)) st
  | Group n r' => matchRe r' (fun st' => k (capture n st st')) st
  | Bol =>
      match before st with
      | None => k st
      | Some c => if isLineTerminator c then k st else None
      end
  | Eol =>
      match ahead st with
      | EmptyString => k st
      | String c _ => if isLineTerminator c then k st else None
      end
  end.

(** The first position at or after the current one where [r] matches. *)
Fixpoint search (r : regex) (prev : option ascii) (s : string)
  : option mstate :=
  match matchRe r Some (MState prev s []) with
  | Some e => Some e
  | None =>
      match s with
      | EmptyString => None
      | String c s' => search r (Some c) s'
      end
  end.

(** [r.test(s)] for a regex without the [g] flag. *)
Definition test (r : regex) (s : string) : bool :=
  match search r None s with Some _ => true | None => false end.

(** A match object: [group m i] is [match[i]], [None] for [undefined]. *)
Definition matchObj := list (nat * string).

Fixpoint group (m : matchObj) (i : nat) : option string :=
  match m with
  | [] => None
  | (j, s) :: m' => if j =? i then Some s else group m' i
  end.

(** The successive results of [r.exec(s)] for a regex with the [g] flag,
    until it returns [null]: the matches of
    [while ((match = r.exec(s)) !== null)]. Every regex of the program
    consumes input, so [lastIndex] advances at each round and the fuel
    [S (length s)] is never exhausted. *)
Fixpoint execFrom (fuel : nat) (r : regex) (prev : option ascii) (s : string)
  : list matchObj :=
  match fuel with
  | O => []
  | S fuel' =>
      match search r prev s with
      | None => []
      | Some e => caps e :: execFrom fuel' r (before e) (ahead e)
      end
  end.

Definition execAll (r : regex) (s : string) : list matchObj :=
  execFrom (S (Str.len s)) r None s.

(** [new RegExp(src)] for the part of the pattern syntax that the ignore
    matcher can produce from plain path characters: a literal character,
    [.], the class [[^/]], and a star after any of them. A source string
    with any other pattern character is outside this fragment ([None]). *)
Inductive pstate : Type := PNormal | PBracket1 | PBracket2 | PBracket3.

Definition isSyntaxChar (c : ascii) : bool :=
  existsb (Ascii.eqb c)
    ["\"; "^"; "$"; "+"; "?"; "("; ")"; "{"; "}"; "|"; "]"]%char.

Fixpoint parseLoop (ps : pstate) (acc : list regex) (s : string)
  : option (list regex) :=
  match s with
  | EmptyString =>
      match ps with PNormal => Some (List.rev acc) | _ => None end
  | String c s' =>
      match ps with
      | PNormal =>
          if Ascii.eqb c "[" then parseLoop PBracket1 acc s'
          else if Ascii.eqb c "*" then
            match acc with
            | [] => None
            | Star _ _ :: _ => None
            | a :: acc' => parseLoop PNormal (Star true a :: acc') s'
            end
          else if Ascii.eqb c "." then parseLoop PNormal (Chr dot :: acc) s'
          else if isSyntaxChar c then None
          else parseLoop PNormal (Chr (lit c) :: acc) s'
      | PBracket1 =>
          if Ascii.eqb c "^" then parseLoop PBracket2 acc s' else None
      | PBracket2 =>
          if Ascii.eqb c "/" then parseLoop PBracket3 acc s' else None
      | PBracket3 =>
          if Ascii.eqb c "]"
          then parseLoop PNormal (Chr (noneOf ["/"%char]) :: acc) s'
          else None
      end
  end.

Definition parse (src : string) : option regex :=
  option_map Cat (parseLoop PNormal [] src).

End RegExp.

(* ===================================================================== *)
(** ** [path] module of the runtime (POSIX), on relative paths *)
(* ===================================================================== *)

Module Path.

Definition sep : ascii := "/"%char.

Definition segments (p : string) : list string := Str.split sep p.

(** [path.join(dir, name)], the root directory being the empty path. *)
Definition join (dir name : string) : string :=
  if Str.isEmpty dir then name else dir +:+ String sep name.

Definition basename (p : string) : string :=
  List.last (segments p) EmptyString.

(** The suffix of [s] that starts at its last dot. *)
Fixpoint fromLastDot (s : string) : option string :=
  match s with
  | EmptyString => None
  | String c s' =>
      match fromLastDot s' with
      | Some e => Some e
      | None => if Ascii.eqb c "." then Some s else None
      end
  end.

(** [path.extname(p)]: from the last dot of the base name to its end;
    empty when there is no dot, when the only dot leads the base name,
    and for the base name of two dots. *)
Definition extname (p : string) : string :=
  match basename p with
  | EmptyString => EmptyString
  | String c rest =>
      if String.eqb (String c rest) ".." then EmptyString
      else default EmptyString (fromLastDot rest)
  end.

End Path.

(* ===================================================================== *)
(** ** The regex literals of the extractors *)
(* ===================================================================== *)

Module Scan.
Import RegExp.

Definition ws1 : regex := Plus (Chr space).          (* \s+ *)
Definition ws0 : regex := Star true (Chr space).     (* \s* *)
Definition w1 : regex := Plus (Chr word).            (* \w+ *)
Definition upperName : regex :=                      (* [A-Z_][A-Z0-9_]* *)
  Seq (Chr (fun c => upper c || lit "_" c))
      (Star true (Chr (fun c => upper c || digit c || lit "_" c))).
Definition parens : regex :=                         (* \([^)]*\) *)
  Cat [Lit "("; Star true (Chr (noneOf [")"%char])); Lit ")"].
Definition quotes : list ascii := ["'"%char; Str.dquote; "`"%char].
Definition kw (s : string) : regex := Seq (Lit s) ws1.  (* keyword\s+ *)

Module JavaScript.
Definition binding : regex :=
  Any [Cat [Lit "{"; Star true (Chr (noneOf ["}"%char])); Lit "}"];
       Cat [Lit "*"; ws1; Lit "as"; ws1; w1];
       w1].
Definition importRegex : regex :=
  Cat [Lit "import"; ws1;
       Opt (Cat [binding;
                 Star true (Cat [ws0; Lit ","; ws0; binding]);
                 ws1; Lit "from"; ws1]);
       Chr (oneOf quotes); Group 1 (Plus (Chr (noneOf quotes)));
       Chr (oneOf quotes)].
Definition requireRegex : regex :=
  Cat [Lit "require("; Chr (oneOf quotes);
       Group 1 (Plus (Chr (noneOf quotes))); Chr (oneOf quotes); Lit ")"].
Definition exportRegex : regex :=
  Cat [Lit "export"; ws1; Opt (kw "default"); Opt (kw "async");
       Any [Seq (kw "function") (Group 1 w1);
            Seq (kw "class") (Group 2 w1);
            Seq (kw "const") (Group 3 w1);
            Seq (kw "let") (Group 4 w1);
            Seq (kw "var") (Group 5 w1);
            Seq (kw "interface") (Group 6 w1);
            Seq (kw "type") (Group 7 w1)]].
Definition funcRegex : regex :=
  Cat [Opt (kw "export"); Opt (kw "async"); kw "function"; Group 1 w1;
       ws0; parens].
Definition arrowFuncRegex : regex :=
  Cat [Opt (kw "export"); Any [Lit "const"; Lit "let"; Lit "var"]; ws1;
       Group 1 w1; ws0; Lit "="; ws0; Opt (kw "async"); parens; ws0;
       Lit "=>"].
Definition classRegex : regex :=
  Cat [Opt (kw "export"); kw "class"; Group 1 w1].
Definition interfaceRegex : regex :=
  Cat [Opt (kw "export"); kw "interface"; Group 1 w1].
Definition typeRegex : regex :=
  Cat [Opt (kw "export"); kw "type"; Group 1 w1].
Definition constRegex : regex :=
  Cat [Opt (kw "export"); kw "const"; Group 1 upperName; ws0; Lit "="].
End JavaScript.

Module Python.
Definition importRegex : regex :=
  Cat [Opt (Cat [kw "from"; Group 1 (Plus (Chr nonSpace)); ws1]);
       kw "import"; Group 2 (Plus (Chr (noneOf [Str.newline])))].
Definition funcRegex : regex := Cat [kw "def"; Group 1 w1; ws0; Lit "("].
Definition classRegex : regex := Seq (kw "class") (Group 1 w1).
Definition constRegex : regex := Cat [Bol; Group 1 upperName; ws0; Lit "="].
End Python.

Module Java.
Definition visibility : regex :=
  Opt (Any [Lit "public"; Lit "private"; Lit "protected"]).
Definition importRegex : regex :=
  Cat [kw "import"; Opt (kw "static");
       Group 1 (Plus (Chr (noneOf [";"%char]))); Lit ";"].
Definition classRegex : regex :=
  Cat [visibility; ws0; kw "class"; Group 1 w1].
Definition interfaceRegex : regex :=
  Cat [visibility; ws0; kw "interface"; Group 1 w1].
Definition methodRegex : regex :=
  Cat [visibility; ws0; Opt (kw "static"); Star true (Seq w1 ws1);
       Group 1 w1; ws0; parens; ws0; Lit "{"].
End Java.

Module C.
Definition importRegex : regex :=
  Cat [Lit "#include"; ws0; Chr (oneOf ["<"%char; Str.dquote]);
       Group 1 (Plus (Chr (noneOf [">"%char; Str.dquote])));
       Chr (oneOf [">"%char; Str.dquote])].
Definition funcRegex : regex :=
  Cat [Opt (kw "static"); Plus (Cat [w1; ws1; Opt (Lit "*"); ws0]);
       Group 1 w1; ws0; parens; ws0; Alt (Lit "{") (Lit ";")].
Definition defineRegex : regex :=
  Cat [Lit "#define"; ws1; Group 1 upperName].
End C.

Module CSharp.
Definition usingRegex : regex :=
  Cat [kw "using"; Group 1 (Plus (Chr (noneOf [";"%char]))); Lit ";"].
Definition classRegex : regex :=
  Cat [Opt (Any [Lit "public"; Lit "private"; Lit "internal"]); ws0;
       Opt (Alt (kw "abstract") (kw "static")); kw "class"; Group 1 w1].
Definition interfaceRegex : regex :=
  Cat [Opt (Any [Lit "public"; Lit "private"; Lit "internal"]); ws0;
       kw "interface"; Group 1 w1].
Definition methodRegex : regex :=
  Cat [Opt (Any [Lit "public"; Lit "private"; Lit "protected";
                 Lit "internal"]); ws0;
       Opt (kw "static"); Opt (kw "virtual"); Opt (kw "override");
       Star true (Seq w1 ws1); Group 1 w1; ws0; parens; ws0; Lit "{"].
End CSharp.

Module Go.
Definition importRegex : regex :=
  Cat [kw "import";
       Alt (Cat [Lit "("; ws0; Group 1 (Plus (Chr (noneOf [")"%char])));
                 ws0; Lit ")"])
           (Cat [Chr (lit Str.dquote);
                 Group 2 (Plus (Chr (noneOf [Str.dquote])));
                 Chr (lit Str.dquote)])].
Definition funcRegex : regex :=
  Cat [kw "func"; Opt (Seq parens ws1); Group 1 w1; ws0; Lit "("].
Definition constRegex : regex := Seq (kw "const") (Group 1 w1).
End Go.

Module Rust.
Definition useRegex : regex :=
  Cat [kw "use"; Group 1 (Plus (Chr (noneOf [";"%char]))); Lit ";"].
Definition funcRegex : regex :=
  Cat [Opt (kw "pub"); kw "fn"; Group 1 w1; ws0; Lit "("].
Definition constRegex : regex :=
  Cat [Opt (kw "pub"); kw "const"; Group 1 w1].
End Rust.

Module Generic.
Definition blockOrLineComment : regex :=
  Alt (Cat [Lit "/*"; Star false (Chr anything); Lit "*/"])
      (Cat [Lit "//"; Star true (Chr dot); Eol]).
Definition hashComment : regex :=
  Cat [Lit "#"; Star true (Chr dot); Eol].
End Generic.

End Scan.

(* ===================================================================== *)
(** ** [ProjectIndexer] *)
(* ===================================================================== *)

Module Indexer.

(** *** Configuration and the ignore matcher *)

Record config : Type := Config {
  rootDir : string;
  outputFile : string;
  ignorePatterns : list string;
  supportedExtensions : list string
}.

Definition builtinIgnorePatterns : list string :=
  ["node_modules/**"; ".git/**"; "dist/**"; "build/**"; "*.min.js"; "*.map";
   ".next/**"; ".vercel/**"; "coverage/**"; "__pycache__/**"; "*.pyc";
   ".DS_Store"; "Thumbs.db"].

Definition defaultExtensions : list string :=
  [".js"; ".jsx"; ".ts"; ".tsx"; ".py"; ".java"; ".cpp"; ".c"; ".h"; ".cs";
   ".php"; ".rb"; ".go"; ".rs"; ".kt"; ".swift"; ".vue"; ".svelte"].

(** [gitignore] is the outcome of reading the ignore file, [None] when
    the file does not exist. *)
Definition getDefaultIgnorePatterns (gitignore : option (result string))
  : list string :=
  match gitignore with
  | Some (Ok gitignoreContent) =>
      builtinIgnorePatterns ++
      map Str.trim
        (List.filter
         (fun line => negb (Str.isEmpty (Str.trim line))
                      && negb (Str.startsWith "#" line))
         (Str.split Str.newline gitignoreContent))
  | _ => builtinIgnorePatterns
  end.

(** The options of the constructor, [None] for a field left out, and the
    constructor: [a || b] takes [b] for a field left out and for an empty
    string. [cwd] is [process.cwd()]. *)
Record options : Type := Options {
  opt_rootDir : option string;
  opt_outputFile : option string;
  opt_ignorePatterns : option (list string);
  opt_supportedExtensions : option (list string)
}.

Definition orString (a : option string) (b : string) : string :=
  match a with
  | Some s => if Str.isEmpty s then b else s
  | None => b
  end.

Definition construct (cwd : string) (gitignore : option (result string))
  (o : options) : config :=
  Config (orString (opt_rootDir o) cwd)
    (orString (opt_outputFile o) "PROJECT_INDEX.json")
    (default (getDefaultIgnorePatterns gitignore) (opt_ignorePatterns o))
    (default defaultExtensions (opt_supportedExtensions o)).

(** The callback of [ignorePatterns.some]. The compiled expression is
    [Unmodelled] when the pattern has characters outside the fragment of
    [RegExp.parse]. *)
Definition ignoredBy (relativePath pattern : string) : result bool :=
  if Str.includes "**" pattern then
    match RegExp.parse
            (Str.replaceStar "[^/]*" (Str.replaceStarStar ".*" pattern)) with
    | Some regex => Ok (RegExp.test regex relativePath)
    | None => Unmodelled
    end
  else Ok (Str.includes (Str.replaceStar EmptyString pattern) relativePath).

(** [patterns.some(...)]: stops at the first pattern that answers true. *)
Fixpoint some (relativePath : string) (patterns : list string) : result bool :=
  match patterns with
  | [] => Ok false
  | pattern :: rest =>
      hit ←r ignoredBy relativePath pattern;;
      if hit then Ok true else some relativePath rest
  end.

Definition shouldIgnoreFile (cfg : config) (filePath : string) : result bool :=
  some filePath (ignorePatterns cfg).

Definition isSupportedFile (cfg : config) (filePath : string) : bool :=
  existsb (String.eqb (Path.extname filePath)) (supportedExtensions cfg).

(** *** Per-file metadata *)

(** What an extractor returns: the fields it sets; a field it leaves out
    ([None]) keeps the value of the record it is spread over. *)
Record fragment : Type := Fragment {
  f_imports : option (list string);
  f_exports : option (list string);
  f_functions : option (list string);
  f_classes : option (list string);
  f_interfaces : option (list string);
  f_constants : option (list string);
  f_types : option (list string);
  f_lineCount : option nat;
  f_hasComments : option bool
}.

Record FileRecord : Type := MkFileRecord {
  path : string;
  extension : string;
  size : nat;
  imports : list string;
  exports : list string;
  functions : list string;
  classes : list string;
  interfaces : list string;
  constants : list string;
  types : list string;
  lineCount : option nat;
  hasComments : option bool
}.

(** The two shapes of [extractFileMetadata]'s return value: the full
    record, or the object of the [catch] block with exactly the fields
    [path], [extension] and [error]. *)
Inductive metadata : Type :=
| Extracted (r : FileRecord)
| Failed (path extension error : string).

(** [{ ...metadata, ...fragment }] *)
Definition spread (m : FileRecord) (f : fragment) : FileRecord :=
  MkFileRecord (path m) (extension m) (size m)
    (default (imports m) (f_imports f))
    (default (exports m) (f_exports f))
    (default (functions m) (f_functions f))
    (default (classes m) (f_classes f))
    (default (interfaces m) (f_interfaces f))
    (default (constants m) (f_constants f))
    (default (types m) (f_types f))
    (match f_lineCount f with Some n => Some n | None => lineCount m end)
    (match f_hasComments f with Some b => Some b | None => hasComments m end).

(** *** The scan loops *)

(** [match[i]], the empty string standing for a group that took no part
    in the match (every use below is of a group that the regex always
    fills, or is guarded by a truthiness test). *)
Definition cap (m : RegExp.matchObj) (i : nat) : string :=
  default EmptyString (RegExp.group m i).

(** Truthiness of [match[i]]. *)
Definition filled (m : RegExp.matchObj) (i : nat) : bool :=
  negb (Str.isEmpty (cap m i)).

(** [list.push(x)] *)
Definition push (l : list string) (x : string) : list string := l ++ [x].

(** [if (!list.includes(x)) list.push(x)] *)
Definition pushNew (l : list string) (x : string) : list string :=
  if existsb (String.eqb x) l then l else push l x.

(** [while ((match = regex.exec(content)) !== null) list.push(match[i])] *)
Definition scanPush (regex : RegExp.regex) (i : nat) (content : string)
  (l : list string) : list string :=
  fold_left (fun l m => push l (cap m i)) (RegExp.execAll regex content) l.

(** The same loop with the [includes] guard. *)
Definition scanPushNew (regex : RegExp.regex) (i : nat) (content : string)
  (l : list string) : list string :=
  fold_left (fun l m => pushNew l (cap m i)) (RegExp.execAll regex content) l.

(** The same loop with [push(match[i].trim())]. *)
Definition scanPushTrim (regex : RegExp.regex) (i : nat) (content : string)
  (l : list string) : list string :=
  fold_left (fun l m => push l (Str.trim (cap m i)))
    (RegExp.execAll regex content) l.

(** The same loop with a guard on the captured name. *)
Definition scanPushUnless (banned : list string) (regex : RegExp.regex)
  (i : nat) (content : string) (l : list string) : list string :=
  fold_left
    (fun l m => if existsb (String.eqb (cap m i)) banned then l
                else push l (cap m i))
    (RegExp.execAll regex content) l.

(** *** JavaScript and TypeScript *)

(** The lists that the export scan fills. *)
Record exportScan : Type := ExportScan {
  x_functions : list string;
  x_classes : list string;
  x_interfaces : list string;
  x_types : list string;
  x_exports : list string
}.

Definition exportStep (acc : exportScan) (m : RegExp.matchObj) : exportScan :=
  let name :=
    if filled m 1 then cap m 1 else if filled m 2 then cap m 2
    else if filled m 3 then cap m 3 else if filled m 4 then cap m 4
    else if filled m 5 then cap m 5 else if filled m 6 then cap m 6
    else cap m 7 in
  if Str.isEmpty name then acc
  else if filled m 1 then
    ExportScan (push (x_functions acc) name) (x_classes acc)
      (x_interfaces acc) (x_types acc) (x_exports acc)
  else if filled m 2 then
    ExportScan (x_functions acc) (push (x_classes acc) name)
      (x_interfaces acc) (x_types acc) (x_exports acc)
  else if filled m 6 then
    ExportScan (x_functions acc) (x_classes acc)
      (push (x_interfaces acc) name) (x_types acc) (x_exports acc)
  else if filled m 7 then
    ExportScan (x_functions acc) (x_classes acc) (x_interfaces acc)
      (push (x_types acc) name) (x_exports acc)
  else
    ExportScan (x_functions acc) (x_classes acc) (x_interfaces acc)
      (x_types acc) (push (x_exports acc) name).

Definition scanExports (content : string) : exportScan :=
  fold_left exportStep
    (RegExp.execAll Scan.JavaScript.exportRegex content)
    (ExportScan [] [] [] [] []).

Definition extractJavaScriptMetadata (content : string) : fragment :=
  let imports :=
    scanPush Scan.JavaScript.requireRegex 1 content
      (scanPush Scan.JavaScript.importRegex 1 content []) in
  let exported := scanExports content in
  let functions :=
    scanPushNew Scan.JavaScript.arrowFuncRegex 1 content
      (scanPushNew Scan.JavaScript.funcRegex 1 content
         (x_functions exported)) in
  let classes :=
    scanPushNew Scan.JavaScript.classRegex 1 content (x_classes exported) in
  let interfaces :=
    scanPushNew Scan.JavaScript.interfaceRegex 1 content
      (x_interfaces exported) in
  let types :=
    scanPushNew Scan.JavaScript.typeRegex 1 content (x_types exported) in
  let constants := scanPushNew Scan.JavaScript.constRegex 1 content [] in
  Fragment (Some imports) (Some (x_exports exported)) (Some functions)
    (Some classes) (Some interfaces) (Some constants) (Some types)
    None None.

(** *** Python *)

Definition pythonImportStep (l : list string) (m : RegExp.matchObj)
  : list string :=
  let l := if filled m 1 then push l (cap m 1) else l in
  l ++ map Str.trim (Str.split "," (cap m 2)).

Definition extractPythonMetadata (content : string) : fragment :=
  let imports :=
    fold_left pythonImportStep
      (RegExp.execAll Scan.Python.importRegex content) [] in
  let functions := scanPush Scan.Python.funcRegex 1 content [] in
  let classes := scanPush Scan.Python.classRegex 1 content [] in
  let constants := scanPush Scan.Python.constRegex 1 content [] in
  Fragment (Some imports) None (Some functions) (Some classes) None
    (Some constants) None None None.

(** *** Java, C, C#, Go, Rust *)

Definition extractJavaMetadata (content : string) : fragment :=
  let imports := scanPushTrim Scan.Java.importRegex 1 content [] in
  let classes := scanPush Scan.Java.classRegex 1 content [] in
  let interfaces := scanPush Scan.Java.interfaceRegex 1 content [] in
  let functions :=
    scanPushUnless ["class"; "interface"] Scan.Java.methodRegex 1 content [] in
  Fragment (Some imports) None (Some functions) (Some classes)
    (Some interfaces) None None None None.

Definition extractCMetadata (content : string) : fragment :=
  let imports := scanPush Scan.C.importRegex 1 content [] in
  let functions :=
    scanPushUnless ["if"; "while"; "for"] Scan.C.funcRegex 1 content [] in
  let constants := scanPush Scan.C.defineRegex 1 content [] in
  Fragment (Some imports) None (Some functions) None None (Some constants)
    None None None.

Definition extractCSharpMetadata (content : string) : fragment :=
  let imports := scanPushTrim Scan.CSharp.usingRegex 1 content [] in
  let classes := scanPush Scan.CSharp.classRegex 1 content [] in
  let interfaces := scanPush Scan.CSharp.interfaceRegex 1 content [] in
  let functions :=
    scanPushUnless ["class"; "interface"] Scan.CSharp.methodRegex 1 content
      [] in
  Fragment (Some imports) None (Some functions) (Some classes)
    (Some interfaces) None None None None.

Definition goImportStep (l : list string) (m : RegExp.matchObj)
  : list string :=
  if filled m 1 then
    l ++ List.filter (fun i => negb (Str.isEmpty i))
           (map (fun i => Str.dropQuotes (Str.trim i))
                (Str.split Str.newline (cap m 1)))
  else if filled m 2 then push l (cap m 2)
  else l.

Definition extractGoMetadata (content : string) : fragment :=
  let imports :=
    fold_left goImportStep (RegExp.execAll Scan.Go.importRegex content) [] in
  let functions := scanPush Scan.Go.funcRegex 1 content [] in
  let constants := scanPush Scan.Go.constRegex 1 content [] in
  Fragment (Some imports) None (Some functions) None None (Some constants)
    None None None.

Definition extractRustMetadata (content : string) : fragment :=
  let imports := scanPushTrim Scan.Rust.useRegex 1 content [] in
  let functions := scanPush Scan.Rust.funcRegex 1 content [] in
  let constants := scanPush Scan.Rust.constRegex 1 content [] in
  Fragment (Some imports) None (Some functions) None None (Some constants)
    None None None.

Definition extractGenericMetadata (content : string) : fragment :=
  Fragment None None None None None None None
    (Some (length (Str.split Str.newline content)))
    (Some (RegExp.test Scan.Generic.blockOrLineComment content
           || RegExp.test Scan.Generic.hashComment content)).

(** What one match of the import pattern contributes to [imports], in the
    Python and in the Go extractor. *)
Definition pythonImportsOf (m : RegExp.matchObj) : list string :=
  (if filled m 1 then [cap m 1] else [])
  ++ map Str.trim (Str.split "," (cap m 2)).

Definition goImportsOf (m : RegExp.matchObj) : list string :=
  if filled m 1 then
    List.filter (fun i => negb (Str.isEmpty i))
      (map (fun i => Str.dropQuotes (Str.trim i))
           (Str.split Str.newline (cap m 1)))
  else if filled m 2 then [cap m 2]
  else [].

(** A list that extends [before] by identifiers that [before] does not
    hold, each of them once. *)
Definition addsOnlyNew (before after : list string) : Prop :=
  ∃ added,
    after = before ++ added
    ∧ List.NoDup added
    ∧ ∀ x, In x added → ¬ In x before.

(** The [switch (ext)] of [extractFileMetadata]. *)
Definition extractByExtension (ext content : string) : fragment :=
  if existsb (String.eqb ext) [".js"; ".jsx"; ".ts"; ".tsx"]
  then extractJavaScriptMetadata content
  else if String.eqb ext ".py" then extractPythonMetadata content
  else if String.eqb ext ".java" then extractJavaMetadata content
  else if existsb (String.eqb ext) [".cpp"; ".c"; ".h"]
  then extractCMetadata content
  else if String.eqb ext ".cs" then extractCSharpMetadata content
  else if String.eqb ext ".go" then extractGoMetadata content
  else if String.eqb ext ".rs" then extractRustMetadata content
  else extractGenericMetadata content.

(** *** The file system and the clock *)

(** A directory entry as [readdirSync(dir, { withFileTypes: true })]
    reports it, with what reading it gives: a regular file with its text,
    a regular file whose read throws, a directory with its entries, a
    directory whose listing throws, and anything else (link, socket). *)
Inductive fsnode : Type :=
| File (content : string)
| BrokenFile (error : string)
| Directory (entries : list (string * fsnode))
| Unreadable (error : string)
| Special.

Fixpoint lookupEntry (name : string) (entries : list (string * fsnode))
  : option fsnode :=
  match entries with
  | [] => None
  | (n, e) :: rest => if String.eqb n name then Some e else lookupEntry name rest
  end.

Fixpoint lookupPath (parts : list string) (root : fsnode) : option fsnode :=
  match parts with
  | [] => Some root
  | part :: rest =>
      match root with
      | Directory entries =>
          match lookupEntry part entries with
          | Some e => lookupPath rest e
          | None => None
          end
      | _ => None
      end
  end.

(** [fs.readFileSync(filePath, 'utf8')] *)
Definition readFileSync (root : fsnode) (filePath : string) : result string :=
  match lookupPath (Path.segments filePath) root with
  | Some (File content) => Ok content
  | Some (BrokenFile error) => Err error
  | Some (Directory _) | Some (Unreadable _) =>
      Err "EISDIR: illegal operation on a directory, read"
  | _ => Err "ENOENT: no such file or directory"
  end.

(** *** Plain objects used as maps *)

(** The accessor property that every plain object inherits from
    [Object.prototype]: an assignment to it sets the prototype, or does
    nothing, and creates no own property. *)
Definition protoAccessor : string := "__proto__".

(** The value of a decimal digit. *)
Definition digitValue (c : ascii) : option N :=
  let n := N_of_ascii c in
  if ((48 <=? n) && (n <=? 57))%N then Some (n - 48)%N else None.

Fixpoint decimal (s : string) (acc : N) : option N :=
  match s with
  | EmptyString => Some acc
  | String c s' =>
      match digitValue c with
      | Some v => decimal s' (10 * acc + v)%N
      | None => None
      end
  end.

(** An array index: a key that is the canonical decimal form (no sign, no
    leading zero) of an integer from 0 to 2^32 - 2. *)
Definition arrayIndex (key : string) : option N :=
  match key with
  | EmptyString => None
  | String c rest =>
      if Ascii.eqb c "0"%char && negb (Str.isEmpty rest) then None
      else
        match decimal key 0 with
        | Some n => if (n <=? 4294967294)%N then Some n else None
        | None => None
        end
  end.

(** The own enumerable string-keyed properties of a plain object, in the
    order in which [Object.entries], [Object.keys] and [JSON.stringify]
    list them: the keys that are array indices first, in ascending numeric
    order, then the other keys in the order of their creation. *)
Definition object (V : Type) : Type := list (string * V).

Fixpoint own {V : Type} (key : string) (o : object V) : option V :=
  match o with
  | [] => None
  | (k, v) :: rest => if String.eqb k key then Some v else own key rest
  end.

(** The value of an own property is replaced where the property stands. *)
Fixpoint setOwn {V : Type} (key : string) (v : V) (o : object V) : object V :=
  match o with
  | [] => []
  | (k, old) :: rest =>
      if String.eqb k key then (k, v) :: rest
      else (k, old) :: setOwn key v rest
  end.

(** A new array index [n] goes before the first key that is a larger
    index or no index at all. *)
Fixpoint insertIndex {V : Type} (n : N) (key : string) (v : V) (o : object V)
  : object V :=
  match o with
  | [] => [(key, v)]
  | (k, x) :: rest =>
      match arrayIndex k with
      | Some m =>
          if (m <? n)%N then (k, x) :: insertIndex n key v rest
          else (key, v) :: o
      | None => (key, v) :: o
      end
  end.

(** [o[key] = v] on a plain object: the value of an own property is
    replaced in place; [__proto__] creates no own property; a new array
    index takes its numeric place, and any other new key is added last. *)
Definition assign {V : Type} (key : string) (v : V) (o : object V) : object V :=
  match own key o with
  | Some _ => setOwn key v o
  | None =>
      if String.eqb key protoAccessor then o
      else
        match arrayIndex key with
        | Some n => insertIndex n key v o
        | None => o ++ [(key, v)]
        end
  end.

(** A key that a plain object lists in the order of its creation: no
    array index, and not the prototype accessor. *)
Definition ordinaryKey (key : string) : bool :=
  negb (String.eqb key protoAccessor)
  && match arrayIndex key with Some _ => false | None => true end.

(** The function-valued properties that every plain object inherits from
    [Object.prototype]. *)
Definition objectPrototypeMethods : list string :=
  ["constructor"; "toString"; "toLocaleString"; "valueOf"; "hasOwnProperty";
   "isPrototypeOf"; "propertyIsEnumerable"; "__defineGetter__";
   "__defineSetter__"; "__lookupGetter__"; "__lookupSetter__"].

(** No property of a built-in object has a name outside this shape. *)
Definition identifierLike (name : string) : bool :=
  forallb (fun c => RegExp.word c || RegExp.lit "$" c)
    (list_ascii_of_string name).

(** A segment that reads no inherited property of a plain object. *)
Definition plainName (part : string) : bool :=
  negb (String.eqb part protoAccessor)
  && negb (existsb (String.eqb part) objectPrototypeMethods).

(** *** The file tree *)

(** A value stored in the tree: the string ['file'] or a nested plain
    object. *)
Inductive node : Type :=
| FileMarker
| Dir (entries : object node).

(** The class body is strict-mode code: an assignment to a property of
    the primitive string ['file'] throws. *)
Definition typeErrorOnString : string :=
  "TypeError: Cannot create property on string 'file'".

(** The rest of the inner loop once [current] is the string ['file'],
    [rest] being the segments still to visit. With one segment left the
    assignment [current[part] = 'file'] throws; with more, [current[part]]
    is read first, and is [undefined] unless the segment names a property
    of a string, after which [current[part] = {}] throws. *)
Definition onString {A : Type} (rest : list string) : result A :=
  match rest with
  | [] => Unmodelled
  | [part] =>
      if String.eqb part protoAccessor then Unmodelled
      else Err typeErrorOnString
  | part :: _ =>
      if identifierLike part then Unmodelled else Err typeErrorOnString
  end.

(** The rest of the inner loop once [current] is a built-in function
    reached through an inherited property: a last segment that no
    built-in property is named after is added to that function, outside
    the tree. *)
Definition onBuiltin {A : Type} (rest : list string) (unchanged : A)
  : result A :=
  match rest with
  | [part] => if identifierLike part then Unmodelled else Ok unchanged
  | _ => Unmodelled
  end.

(** The inner loop of [buildFileTree] over the segments of one path,
    [current] being the object the loop is at. *)
Fixpoint insertPath (parts : list string) (current : object node)
  : result (object node) :=
  match parts with
  | [] => Ok current
  | [part] =>
      if String.eqb part protoAccessor then Unmodelled
      else Ok (assign part FileMarker current)
  | part :: rest =>
      match own part current with
      | Some (Dir sub) =>
          sub' ←r insertPath rest sub;;
          Ok (assign part (Dir sub') current)
      | Some FileMarker => onString rest
      | None =>
          if String.eqb part protoAccessor then Unmodelled
          else if existsb (String.eqb part) objectPrototypeMethods
          then onBuiltin rest current
          else
            sub' ←r insertPath rest [];;
            Ok (assign part (Dir sub') current)
      end
  end.

Fixpoint insertAll (files : list string) (tree : object node)
  : result (object node) :=
  match files with
  | [] => Ok tree
  | file :: rest =>
      tree' ←r insertPath (Path.segments file) tree;;
      insertAll rest tree'
  end.

Definition buildFileTree (files : list string) : result node :=
  tree ←r insertAll files [];;
  Ok (Dir tree).

(** The file markers of a tree, each one a distinct leaf. *)
Fixpoint countFiles (n : node) : nat :=
  match n with
  | FileMarker => 1
  | Dir entries =>
      (fix sum (es : object node) : nat :=
         match es with
         | [] => 0
         | (_, child) :: rest => countFiles child + sum rest
         end) entries
  end.

(** [tree.a.b...]: the value at a path of segments. *)
Fixpoint at_path (parts : list string) (n : node) : option node :=
  match parts with
  | [] => Some n
  | part :: rest =>
      match n with
      | Dir entries =>
          match own part entries with
          | Some child => at_path rest child
          | None => None
          end
      | FileMarker => None
      end
  end.

(** The file markers under a plain object. *)
Definition countEntries (o : object node) : nat := countFiles (Dir o).

(** A path that the tree has no entry for, and no file marker on the way
    to: its insertion creates directories or steps into directories, and
    adds a marker where there was nothing. *)
Fixpoint fresh (parts : list string) (current : object node) : Prop :=
  match parts with
  | [] => False
  | part :: rest =>
      match rest with
      | [] => own part current = None
      | _ :: _ =>
          match own part current with
          | None => True
          | Some (Dir sub) => fresh rest sub
          | Some FileMarker => False
          end
      end
  end.

(** Two paths of which neither leads to or through the other, and a list
    of paths that are so two by two: the files of a directory tree. *)
Definition incomparable (p q : list string) : Prop :=
  ¬ p `prefix_of` q ∧ ¬ q `prefix_of` p.

Fixpoint prefixFree (paths : list (list string)) : Prop :=
  match paths with
  | [] => True
  | p :: rest => List.Forall (incomparable p) rest ∧ prefixFree rest
  end.

(** *** The summary *)

Record Summary : Type := MkSummary {
  totalFunctions : nat;
  totalClasses : nat;
  totalInterfaces : nat;
  totalConstants : nat;
  filesByExtension : gmap string nat;
  largestFiles : list (string * nat)
}.

(** [metadata.extension || 'unknown'] *)
Definition extensionKey (extension : string) : string :=
  if Str.isEmpty extension then "unknown" else extension.

(** [summary.filesByExtension[ext] = (summary.filesByExtension[ext] || 0) + 1].
    An extension is empty or starts with a dot, so it never names an
    inherited property. *)
Definition countExtension (extension : string) (m : gmap string nat)
  : gmap string nat :=
  let ext := extensionKey extension in
  <[ext := default 0 (m !! ext) + 1]> m.

(** One round of the loop over [Object.entries(fileMetadata)]: the
    summary so far and the [fileSizes] array. *)
Definition summaryStep (acc : Summary * list (string * nat))
  (entry : string * metadata) : Summary * list (string * nat) :=
  let (summary, fileSizes) := acc in
  let (filePath, metadata) := entry in
  match metadata with
  | Extracted r =>
      (MkSummary
         (totalFunctions summary + length (functions r))
         (totalClasses summary + length (classes r))
         (totalInterfaces summary + length (interfaces r))
         (totalConstants summary + length (constants r))
         (countExtension (extension r) (filesByExtension summary))
         (largestFiles summary),
       if size r =? 0 then fileSizes else fileSizes ++ [(filePath, size r)])
  | Failed _ extension _ =>
      (MkSummary
         (totalFunctions summary) (totalClasses summary)
         (totalInterfaces summary) (totalConstants summary)
         (countExtension extension (filesByExtension summary))
         (largestFiles summary),
       fileSizes)
  end.

(** [fileSizes.sort((a, b) => b.size - a.size)]. The sort of the runtime
    is stable, so its result is the one order that is descending by size
    and keeps equal sizes in their order of arrival; it is computed here
    by insertion from the right. *)
Fixpoint insertBySize (x : string * nat) (sorted : list (string * nat))
  : list (string * nat) :=
  match sorted with
  | [] => [x]
  | y :: rest =>
      if snd x <? snd y then y :: insertBySize x rest else x :: y :: rest
  end.

Fixpoint sortBySize (l : list (string * nat)) : list (string * nat) :=
  match l with
  | [] => []
  | x :: rest => insertBySize x (sortBySize rest)
  end.

Definition generateSummary (fileMetadata : object metadata) : Summary :=
  let (summary, fileSizes) :=
    fold_left summaryStep fileMetadata
      (MkSummary 0 0 0 0 ∅ [], []) in
  MkSummary (totalFunctions summary) (totalClasses summary)
    (totalInterfaces summary) (totalConstants summary)
    (filesByExtension summary)
    (take 10 (sortBySize fileSizes)).

Definition metadataPath (m : metadata) : string :=
  match m with
  | Extracted r => path r
  | Failed p _ _ => p
  end.

Definition metadataExtension (m : metadata) : string :=
  match m with
  | Extracted r => extension r
  | Failed _ ext _ => ext
  end.

(** [metadata.size] when it is truthy: a failed record has no size, and
    a size of 0 is falsy. *)
Definition truthySize (m : metadata) : option nat :=
  match m with
  | Extracted r => if size r =? 0 then None else Some (size r)
  | Failed _ _ _ => None
  end.

(** The candidates of the ranking: the entries of the mapping with a
    truthy size, in the order of the mapping. *)
Fixpoint sizedEntries (fileMetadata : object metadata) : list (string * nat) :=
  match fileMetadata with
  | [] => []
  | (filePath, m) :: rest =>
      match truthySize m with
      | Some n => (filePath, n) :: sizedEntries rest
      | None => sizedEntries rest
      end
  end.

(** The number of records of the mapping that are filed under the
    extension key [key]. *)
Definition filedUnder (key : string) (fileMetadata : object metadata) : nat :=
  length (List.filter
            (fun e => String.eqb (extensionKey (metadataExtension (snd e))) key)
            fileMetadata).

(** Every entry of the mapping whose record has a [size] field, the size
    0 included, in the order of the mapping: the candidates of a ranking
    of all the files by size. *)
Fixpoint recordedSizes (fileMetadata : object metadata) : list (string * nat) :=
  match fileMetadata with
  | [] => []
  | (filePath, Extracted r) :: rest => (filePath, size r) :: recordedSizes rest
  | (_, Failed _ _ _) :: rest => recordedSizes rest
  end.

(** The order of the ranking, and the test for one size. *)
Definition descending (a b : string * nat) : Prop := snd b ≤ snd a.

Definition hasSize (v : nat) (x : string * nat) : bool := snd x =? v.

(** A record that holds nothing but a path, an extension and a size. *)
Definition bareRecord (filePath ext : string) (n : nat) : metadata :=
  Extracted (MkFileRecord filePath ext n [] [] [] [] [] [] [] None None).

Record IndexDocument : Type := MkIndexDocument {
  generatedAt : string;
  projectRoot : string;
  totalFiles : nat;
  fileTree : node;
  files : object metadata;
  summary : Summary
}.

Section Build.

Variable cfg : config.
(** The project directory. *)
Variable root : fsnode.
(** The extractor table, by extension. The table of the program is
    [fun ext content => Ok (extractByExtension ext content)]; statements
    about a scan that raises are over every table. *)
Variable extractors : string → string → result fragment.
(** The outcome of [fs.writeFileSync(outputPath, ...)]. *)
Variable writeFileSync : string → result unit.
(** [new Date().toISOString()] *)
Variable now : string.

(** *** Per-file extraction *)

Definition extractFileMetadata (filePath : string) : result metadata :=
  tryCatch
    (content ←r readFileSync root filePath;;
     let ext := Path.extname filePath in
     let metadata :=
       MkFileRecord filePath ext (Str.len content) [] [] [] [] [] [] []
         None None in
     extracted ←r extractors ext content;;
     Ok (Extracted (spread metadata extracted)))
    (fun message =>
       Ok (Failed filePath (Path.extname filePath) message)).

(** *** The directory walk *)

Fixpoint scanDirectory (dir : string) (d : fsnode) : result (list string) :=
  match d with
  | Directory entries =>
      (fix loop (entries : list (string * fsnode)) (files : list string)
         : result (list string) :=
         match entries with
         | [] => Ok files
         | (name, entry) :: rest =>
             let fullPath := Path.join dir name in
             ignored ←r shouldIgnoreFile cfg fullPath;;
             if ignored then loop rest files
             else
               match entry with
               | Directory _ | Unreadable _ =>
                   found ←r scanDirectory fullPath entry;;
                   loop rest (files ++ found)
               | File _ | BrokenFile _ =>
                   if isSupportedFile cfg fullPath
                   then loop rest (files ++ [fullPath])
                   else loop rest files
               | Special => loop rest files
               end
         end) entries []
  | _ => Ok []
  end.

(** *** The build *)

(** The loop of [generateIndex] over the discovered files. *)
Fixpoint processFiles (files : list string) (fileMetadata : object metadata)
  : result (object metadata) :=
  match files with
  | [] => Ok fileMetadata
  | file :: rest =>
      metadata ←r extractFileMetadata file;;
      processFiles rest (assign (metadataPath metadata) metadata fileMetadata)
  end.

Definition generateIndex : result IndexDocument :=
  files ←r scanDirectory EmptyString root;;
  fileTree ←r buildFileTree files;;
  fileMetadata ←r processFiles files [];;
  let index :=
    MkIndexDocument now (rootDir cfg) (length files) fileTree fileMetadata
      (generateSummary fileMetadata) in
  _ ←r writeFileSync (outputFile cfg);;
  Ok index.

End Build.

(** The extractor table of the program. *)
Definition programExtractors (ext content : string) : result fragment :=
  Ok (extractByExtension ext content).

End Indexer.

(** The reading of the ignore patterns that the specification gives: a
    double star stands for any run of path segments, separators included, a
    single star for any run of characters other than the separator, every
    other character for itself; the compiled matcher is applied to the
    relative path as the program applies it. *)
Module GlobSpec.
Import RegExp.

Fixpoint compile (pattern : string) : regex :=
  match pattern with
  | String "*" (String "*" rest) => Seq (Star true (Chr anything)) (compile rest)
  | String "*" rest => Seq (Star true (Chr (noneOf [Path.sep]))) (compile rest)
  | String c rest => Seq (Chr (lit c)) (compile rest)
  | EmptyString => Eps
  end.

Definition matches (pattern relativePath : string) : bool :=
  test (compile pattern) relativePath.

End GlobSpec.


(* ===================================================================== *)
(** ** [ProjectWatcher] *)
(* ===================================================================== *)

Module Watcher.

(** The values an option can hold: numbers are the integers and [NaN]. *)
Inductive jsval : Type :=
| JUndefined
| JNull
| JBool (b : bool)
| JNumber (n : Z)
| JNaN
| JString (s : string).

Definition truthy (v : jsval) : bool :=
  match v with
  | JUndefined | JNull | JNaN => false
  | JBool b => b
  | JNumber n => negb (n =? 0)%Z
  | JString s => negb (Str.isEmpty s)
  end.

(** [a || b] *)
Definition orElse (a b : jsval) : jsval := if truthy a then a else b.

Record options : Type := Options { opt_debounceMs : jsval }.

(** The scheduler's fields, with the part of the runtime they act on:
    the active timers (handle and due time, in arming order), the next
    fresh handle, and a log of the times at which the indexer ran. *)
Record state : Type := State {
  debounceMs : jsval;
  rebuildTimer : option nat;
  isRebuilding : bool;
  timers : list (nat * nat);
  nextHandle : nat;
  builds : list nat
}.

(** The constructor. *)
Definition construct (o : options) : state :=
  State (orElse (opt_debounceMs o) (JNumber 1000)) None false [] 0 [].

Definition TIMEOUT_MAX : Z := 2147483647.

(** The delay [setTimeout] arms for its second argument: the number
    itself between 1 and [TIMEOUT_MAX], and 1 for any other number and
    for what converts to [NaN], 0 or 1. The conversion of strings is not
    modelled. *)
Definition timeoutDelay (v : jsval) : result nat :=
  match v with
  | JNumber n =>
      if ((1 <=? n) && (n <=? TIMEOUT_MAX))%Z then Ok (Z.to_nat n) else Ok 1
  | JString _ => Unmodelled
  | _ => Ok 1
  end.

(** [clearTimeout(handle)] *)
Definition clearTimeout (handle : nat) (ts : list (nat * nat))
  : list (nat * nat) :=
  List.filter (fun t => negb (fst t =? handle)) ts.

(** [scheduleRebuild()], called at time [now]. *)
Definition scheduleRebuild (now : nat) (s : state) : result state :=
  if isRebuilding s then Ok s
  else
    let cleared :=
      match rebuildTimer s with
      | Some handle => clearTimeout handle (timers s)
      | None => timers s
      end in
    delay ←r timeoutDelay (debounceMs s);;
    Ok (State (debounceMs s) (Some (nextHandle s)) false
          (cleared ++ [(nextHandle s, now + delay)])
          (S (nextHandle s)) (builds s)).

(** [generateIndex()] in three parts: the guard and the raising of the
    flag, the call of the indexer inside [try], and the [finally] block.
    Whatever the indexer does, returning or throwing, the [catch] and
    [finally] blocks leave the same scheduler state. *)
Definition beginBuild (s : state) : option state :=
  if isRebuilding s then None
  else Some (State (debounceMs s) (rebuildTimer s) true (timers s)
               (nextHandle s) (builds s)).

Definition runIndexer (now : nat) (s : state) : state :=
  State (debounceMs s) (rebuildTimer s) (isRebuilding s) (timers s)
    (nextHandle s) (now :: builds s).

Definition finishBuild (s : state) : state :=
  State (debounceMs s) (rebuildTimer s) false (timers s) (nextHandle s)
    (builds s).

Definition generateIndex (now : nat) (s : state) : state :=
  match beginBuild s with
  | None => s
  | Some building => finishBuild (runIndexer now building)
  end.

(** [start()], as far as the scheduler goes: the first build, run before
    the watcher is set up. *)
Definition start (now : nat) (o : options) : state :=
  generateIndex now (construct o).

(** *** The event loop *)

(** Whether a timer is run before the change event delivered at time
    [t]: always when it is due earlier, and by the choice [tie] of the
    loop when it is due at [t] exactly. *)
Definition dueBefore (tie : bool) (t : nat) (timer : nat * nat) : bool :=
  if tie then snd timer <=? t else snd timer <? t.

(** The callbacks of the given timers, each run at its due time. *)
Definition expire (due : list (nat * nat)) (s : state) : state :=
  fold_left (fun s timer => generateIndex (snd timer) s) due s.

Definition withTimers (ts : list (nat * nat)) (s : state) : state :=
  State (debounceMs s) (rebuildTimer s) (isRebuilding s) ts (nextHandle s)
    (builds s).

(** The loop reaches time [t]: the timers due by then fire. *)
Definition advance (tie : bool) (t : nat) (s : state) : state :=
  expire (List.filter (dueBefore tie t) (timers s))
    (withTimers (List.filter (fun x => negb (dueBefore tie t x)) (timers s)) s).

(** A change event (of any kind: every handler calls [scheduleRebuild])
    delivered at time [t]. *)
Definition deliver (tie : bool) (t : nat) (s : state) : result state :=
  scheduleRebuild t (advance tie t s).

Fixpoint run (tie : bool) (events : list nat) (s : state) : result state :=
  match events with
  | [] => Ok s
  | t :: rest =>
      s' ←r deliver tie t s;;
      run tie rest s'
  end.

(** No further event: every timer still armed fires. *)
Definition settle (s : state) : state :=
  expire (timers s) (withTimers [] s).

(** The log of indexer runs once a stream of change events, given by
    their delivery times, has been delivered from state [s] and the loop
    has gone quiet; the latest run comes first. *)
Definition rebuildLog (tie : bool) (events : list nat) (s : state)
  : result (list nat) :=
  s' ←r run tie events s;;
  Ok (builds (settle s')).

(** The scheduler between two builds, with nothing armed: the state after
    [start()] and after every rebuild. *)
Definition idle (s : state) : Prop :=
  isRebuilding s = false ∧ timers s = [].




End Watcher.

(* ===================================================================== *)
(** ** Notions for the statements on the rest of the program *)
(* ===================================================================== *)

Module RegExpNotions.
Import RegExp.

(** The least number of code units a match of the expression consumes. *)
Fixpoint minLen (r : regex) : nat :=
  match r with
  | Eps | Bol | Eol => 0
  | Chr _ => 1
  | Seq r1 r2 => minLen r1 + minLen r2
  | Alt r1 r2 => Nat.min (minLen r1) (minLen r2)
  | Star _ _ => 0
  | Group _ r' => minLen r'
  end.

(** The matchers of a concatenation, one after the other. *)
Fixpoint matchAll (rs : list regex) (k : mstate → option mstate)
  : mstate → option mstate :=
  match rs with
  | [] => k
  | r :: rs' => matchRe r (matchAll rs' k)
  end.

(** The loop of the star, under its own name: [matchRe (Star greedy r) k st]
    is [iterate greedy r k (Str.len (ahead st)) st]. *)
Section Iterate.

Variable greedy : bool.
Variable r : regex.
Variable k : mstate → option mstate.

Fixpoint iterate (fuel : nat) (st : mstate) : option mstate :=
  match fuel with
  | O => k st
  | S fuel' =>
      let again :=
        matchRe r
          (fun st' =>
             if Str.len (ahead st') <? Str.len (ahead st)
             then iterate fuel' st' else None) st in
      if greedy then
        match again with Some e => Some e | None => k st end
      else
        match k st with Some e => Some e | None => again end
  end.

End Iterate.

End RegExpNotions.

Module IgnoreNotions.

(** A character of a directory name that the pattern syntax leaves alone
    or, for the dot, reads as a class that holds the dot. *)
Definition nameChar (c : ascii) : bool :=
  negb (Ascii.eqb c "*") && negb (Ascii.eqb c "[")
  && negb (RegExp.isSyntaxChar c) && negb (RegExp.isLineTerminator c).

Definition dirName (d : string) : bool :=
  forallb nameChar (list_ascii_of_string d).

(** What [RegExp.parse] makes of such a character. *)
Definition atomOf (c : ascii) : RegExp.regex :=
  if Ascii.eqb c "." then RegExp.Chr RegExp.dot
  else RegExp.Chr (RegExp.lit c).

(** The expression compiled for the pattern [d/**]. *)
Definition compiledDirPattern (d : string) : list RegExp.regex :=
  map atomOf (list_ascii_of_string d)
  ++ [RegExp.Chr (RegExp.lit "/"); RegExp.Chr RegExp.dot;
      RegExp.Star true (RegExp.Chr (RegExp.noneOf ["/"%char]))].


End IgnoreNotions.

Module WalkNotions.
Import Indexer.

(** The loop of [scanDirectory] over the entries of one directory, under
    its own name: [scanDirectory cfg dir (Directory entries)] is
    [scanEntries cfg dir entries []]. *)
Section Entries.

Variable cfg : config.
Variable dir : string.

Fixpoint scanEntries (entries : list (string * fsnode)) (files : list string)
  : result (list string) :=
  match entries with
  | [] => Ok files
  | (name, entry) :: rest =>
      let fullPath := Path.join dir name in
      ignored ←r shouldIgnoreFile cfg fullPath;;
      if ignored then scanEntries rest files
      else
        match entry with
        | Directory _ | Unreadable _ =>
            found ←r scanDirectory cfg fullPath entry;;
            scanEntries rest (files ++ found)
        | File _ | BrokenFile _ =>
            if isSupportedFile cfg fullPath
            then scanEntries rest (files ++ [fullPath])
            else scanEntries rest files
        | Special => scanEntries rest files
        end
  end.

End Entries.

(** An entry that the walk passes over: one that the matcher excludes
    (with all that lies below it), a directory whose listing fails, a file
    whose extension is not supported, or an entry of another kind. *)
Definition passedOver (cfg : config) (dir name : string) (entry : fsnode)
  : Prop :=
  shouldIgnoreFile cfg (Path.join dir name) = Ok true
  ∨ (shouldIgnoreFile cfg (Path.join dir name) = Ok false
     ∧ match entry with
       | Unreadable _ | Special => True
       | File _ | BrokenFile _ =>
           isSupportedFile cfg (Path.join dir name) = false
       | Directory _ => False
       end).

End WalkNotions.

Module ExtractNotions.
Import Indexer.

(** The number of occurrences of a code unit in a text. *)
Fixpoint countChar (c : ascii) (s : string) : nat :=
  match s with
  | EmptyString => 0
  | String a s' => (if Ascii.eqb a c then 1 else 0) + countChar c s'
  end.

(** The extensions that the [switch] of [extractFileMetadata] names. *)
Definition handledExtensions : list string :=
  [".js"; ".jsx"; ".ts"; ".tsx"; ".py"; ".java"; ".cpp"; ".c"; ".h"; ".cs";
   ".go"; ".rs"].

(** A match of the export pattern that yields a name. *)
Definition namedExport (m : RegExp.matchObj) : bool :=
  filled m 1 || filled m 2 || filled m 3 || filled m 4 || filled m 5
  || filled m 6 || filled m 7.

(** The number of names that the export scan has filed. *)
Definition filedExports (x : exportScan) : nat :=
  length (x_functions x) + length (x_classes x) + length (x_interfaces x)
  + length (x_types x) + length (x_exports x).

(** The sum of the counts of [filesByExtension]. *)
Definition countedFiles (m : gmap string nat) : nat :=
  map_fold (fun _ n total => n + total) 0 m.

End ExtractNotions.

Module WatcherNotions.
Import Watcher.

(** The scheduler between two builds with one timer armed, for the event
    delivered at time [t]; [base] is the log of runs at the start of the
    stream and [n] bounds the runs since. *)
Definition waiting (db : jsval) (d : nat) (base : list nat) (t n : nat)
  (s : state) : Prop :=
  isRebuilding s = false
  ∧ debounceMs s = db
  ∧ (∃ handle, timers s = [(handle, t + d)] ∧ rebuildTimer s = Some handle)
  ∧ ∃ new, builds s = new ++ base ∧ length new ≤ n.

End WatcherNotions.

(* ===================================================================== *)
(** ** The command line of the indexer *)
(* ===================================================================== *)

Module Cli.
Import Indexer.

(** The message of the exception of [value.split(',')] when [value] is
    [undefined]. *)
Definition typeErrorOnUndefined : string :=
  "TypeError: Cannot read properties of undefined (reading 'split')".

(** One round of the loop: [key] is [args[i]] and [value] is [args[i + 1]],
    [None] when the index is past the end. *)
Definition argStep (key : string) (value : option string) (o : options)
  : result options :=
  if String.eqb key "--root" then
    Ok (Options value (opt_outputFile o) (opt_ignorePatterns o)
          (opt_supportedExtensions o))
  else if String.eqb key "--output" then
    Ok (Options (opt_rootDir o) value (opt_ignorePatterns o)
          (opt_supportedExtensions o))
  else if String.eqb key "--extensions" then
    match value with
    | Some v =>
        Ok (Options (opt_rootDir o) (opt_outputFile o) (opt_ignorePatterns o)
              (Some (Str.split "," v)))
    | None => Err typeErrorOnUndefined
    end
  else Ok o.

(** [for (let i = 0; i < args.length; i += 2)] *)
Fixpoint parseArgs (args : list string) (o : options) : result options :=
  match args with
  | [] => Ok o
  | key :: more =>
      match more with
      | [] => argStep key None o
      | value :: rest =>
          o' ←r argStep key (Some value) o;;
          parseArgs rest o'
      end
  end.

(** The script run from the command line: the options, the constructor,
    the build. *)
Definition main (cwd : string) (gitignore : option (result string))
  (root : fsnode) (writeFileSync : string → result unit) (now : string)
  (args : list string) : result IndexDocument :=
  o ←r parseArgs args (Options None None None None);;
  generateIndex (construct cwd gitignore o) root programExtractors
    writeFileSync now.

End Cli.

(* ===================================================================== *)
(** * Properties *)
(* ===================================================================== *)

(** ** The ignore matcher *)

Module IgnoreFacts.
Import Indexer.

(** The expression that the two chained replacements build: the star of
    the text put in for a double star is itself rewritten by the second
    replacement. *)
Lemma compiled_source_double_star :
  Str.replaceStar "[^/]*" (Str.replaceStarStar ".*" "a/**/b") = "a/.[^/]*/b"
  ∧ Str.replaceStarStar ".*" "a/**/b" = "a/.*/b".
Proof. split; reflexivity. Qed.

(** C1. The claim is that a pattern with a double star excludes a path
    exactly when it matches it with the double star standing for any
    number of path segments. At the pattern [a/**/b] and the path
    [a/x/y/b] the specified reading matches (two segments stand between
    the ends), and so does the expression the first replacement alone
    would give, but [shouldIgnoreFile] answers false: the second
    replacement has turned the double star into one character followed by
    characters other than the separator. *)
Theorem shouldIgnoreFile_double_star_one_segment :
  let cfg := Config "/project" "PROJECT_INDEX.json" ["a/**/b"] defaultExtensions in
  shouldIgnoreFile cfg "a/x/y/b" = Ok false
  ∧ GlobSpec.matches "a/**/b" "a/x/y/b" = true
  ∧ option_map (fun r => RegExp.test r "a/x/y/b")
      (RegExp.parse (Str.replaceStarStar ".*" "a/**/b")) = Some true
  ∧ shouldIgnoreFile cfg "a/x/b" = Ok true
  ∧ shouldIgnoreFile
      (Config "/project" "PROJECT_INDEX.json" ["src/**/*.js"] defaultExtensions)
      "src/a/b/c.js" = Ok false.
Proof. vm_compute. repeat split. Qed.

End IgnoreFacts.

(** ** The tree builder *)

Module TreeFacts.
Import Indexer.

Lemma own_setOwn_eq {V : Type} (key : string) (v old : V) (o : object V) :
  own key o = Some old → own key (setOwn key v o) = Some v.
Proof.
  induction o as [|[k x] rest IH]; simpl; [discriminate|].
  destruct (String.eqb k key) eqn:E; simpl; rewrite E; auto.
Qed.

Lemma own_setOwn_ne {V : Type} (key key' : string) (v : V) (o : object V) :
  key ≠ key' → own key' (setOwn key v o) = own key' o.
Proof.
  intros Hne. induction o as [|[k x] rest IH]; simpl; [reflexivity|].
  destruct (String.eqb k key) eqn:E; simpl.
  - apply String.eqb_eq in E. subst k.
    destruct (String.eqb key key') eqn:E'; auto.
    apply String.eqb_eq in E'. contradiction.
  - destruct (String.eqb k key'); auto.
Qed.

Lemma own_insertIndex_eq {V : Type} (n : N) (key : string) (v : V)
  (o : object V) :
  own key o = None → own key (insertIndex n key v o) = Some v.
Proof.
  induction o as [|[k x] rest IH]; simpl.
  - intros _. now rewrite String.eqb_refl.
  - destruct (String.eqb k key) eqn:E; [discriminate|]. intros H.
    destruct (arrayIndex k) as [m|]; [destruct (m <? n)%N|]; simpl;
      rewrite ?E, ?String.eqb_refl; auto.
Qed.

Lemma own_insertIndex_ne {V : Type} (n : N) (key key' : string) (v : V)
  (o : object V) :
  key ≠ key' → own key' (insertIndex n key v o) = own key' o.
Proof.
  intros Hne. apply String.eqb_neq in Hne.
  induction o as [|[k x] rest IH]; simpl; [now rewrite Hne|].
  destruct (arrayIndex k) as [m|]; [destruct (m <? n)%N|]; simpl;
    rewrite ?Hne, ?IH; reflexivity.
Qed.

Lemma own_app {V : Type} (key key' : string) (v : V) (o : object V) :
  own key' (o ++ [(key, v)])
  = match own key' o with
    | Some x => Some x
    | None => if String.eqb key key' then Some v else None
    end.
Proof.
  induction o as [|[k x] rest IH]; simpl; [reflexivity|].
  destruct (String.eqb k key'); auto.
Qed.

(** After [o[key] = v] the object has the own property, unless the key is
    the prototype accessor. *)
Lemma own_assign_eq {V : Type} (key : string) (v : V) (o : object V) :
  String.eqb key protoAccessor = false →
  own key (assign key v o) = Some v.
Proof.
  intros Hproto. unfold assign.
  destruct (own key o) as [old|] eqn:Hown.
  - now apply (own_setOwn_eq key v old).
  - rewrite Hproto. destruct (arrayIndex key) as [n|].
    + now apply own_insertIndex_eq.
    + now rewrite own_app, Hown, String.eqb_refl.
Qed.

Lemma own_assign_ne {V : Type} (key key' : string) (v : V) (o : object V) :
  key ≠ key' → own key' (assign key v o) = own key' o.
Proof.
  intros Hne. unfold assign.
  destruct (own key o) as [old|]; [now apply own_setOwn_ne|].
  destruct (String.eqb key protoAccessor); [reflexivity|].
  destruct (arrayIndex key) as [n|]; [now apply own_insertIndex_ne|].
  rewrite own_app. apply String.eqb_neq in Hne. rewrite Hne.
  now destruct (own key' o).
Qed.

Lemma plainName_split (part : string) :
  plainName part = true →
  String.eqb part protoAccessor = false
  ∧ existsb (String.eqb part) objectPrototypeMethods = false.
Proof.
  unfold plainName. intros H. apply andb_true_iff in H as [H1 H2].
  now apply negb_true_iff in H1, H2.
Qed.

(** The inner loop on two segments or more, unfolded by one segment. *)
Lemma insertPath_step (part next : string) (rest : list string)
  (current : object node) :
  insertPath (part :: next :: rest) current
  = match own part current with
    | Some (Dir sub) =>
        sub' ←r insertPath (next :: rest) sub;;
        Ok (assign part (Dir sub') current)
    | Some FileMarker => onString (next :: rest)
    | None =>
        if String.eqb part protoAccessor then Unmodelled
        else if existsb (String.eqb part) objectPrototypeMethods
        then onBuiltin (next :: rest) current
        else
          sub' ←r insertPath (next :: rest) [];;
          Ok (assign part (Dir sub') current)
    end.
Proof. reflexivity. Qed.

Lemma fresh_step (part next : string) (rest : list string)
  (current : object node) :
  fresh (part :: next :: rest) current
  = match own part current with
    | None => True
    | Some (Dir sub) => fresh (next :: rest) sub
    | Some FileMarker => False
    end.
Proof. reflexivity. Qed.

Lemma at_path_step (part : string) (rest : list string) (entries : object node) :
  at_path (part :: rest) (Dir entries)
  = match own part entries with
    | Some child => at_path rest child
    | None => None
    end.
Proof. reflexivity. Qed.

Lemma onString_not_ok {A : Type} (rest : list string) (a : A) :
  onString rest ≠ Ok a.
Proof.
  destruct rest as [|p [|q rest]]; simpl; try discriminate.
  - destruct (String.eqb p protoAccessor); discriminate.
  - destruct (identifierLike p); discriminate.
Qed.

(** Whatever a path of plain segments finds on its way, once its
    insertion returns the tree holds a file marker at that path: an entry
    that was a directory there has been overwritten. *)
Lemma insertPath_marks_file (parts : list string) :
  ∀ (current tree' : object node),
    parts ≠ [] →
    forallb plainName parts = true →
    insertPath parts current = Ok tree' →
    at_path parts (Dir tree') = Some FileMarker.
Proof.
  induction parts as [|part rest IH]; intros current tree' Hne Hplain Hins;
    [contradiction|].
  simpl in Hplain. apply andb_true_iff in Hplain as [Hp Hrest].
  apply plainName_split in Hp as [Hproto Hmeth].
  destruct rest as [|next rest].
  - simpl in Hins. rewrite Hproto in Hins. inversion Hins; subst.
    simpl. now rewrite own_assign_eq.
  - rewrite insertPath_step in Hins.
    destruct (own part current) as [[|sub]|] eqn:Hown.
    + now apply onString_not_ok in Hins.
    + destruct (insertPath (next :: rest) sub) as [sub'| |] eqn:Hsub;
        simpl in Hins; try discriminate.
      inversion Hins; subst.
      rewrite at_path_step, own_assign_eq by assumption.
      eapply IH; eauto; discriminate.
    + rewrite Hproto, Hmeth in Hins.
      destruct (insertPath (next :: rest) []) as [sub'| |] eqn:Hsub;
        simpl in Hins; try discriminate.
      inversion Hins; subst.
      rewrite at_path_step, own_assign_eq by assumption.
      eapply IH; eauto; discriminate.
Qed.

(** C2. The claim is that a later path overwrites an earlier entry in
    both directions. A directory is overwritten by a later file of the
    same name, but not the reverse: with the file [a] first and the path
    [a/b] second, the guard finds the marker truthy and keeps it, the
    loop steps into the string, and the assignment to a property of a
    string throws, so no tree is returned. *)
Theorem buildFileTree_file_then_directory_throws :
  buildFileTree ["a"; "a/b"] = Err typeErrorOnString
  ∧ buildFileTree ["a/b"; "a"] = Ok (Dir [("a", FileMarker)])
  ∧ buildFileTree ["a"; "a/b.js"] = Err typeErrorOnString
  ∧ insertPath ["a"; "b"] [("a", FileMarker)] = Err typeErrorOnString.
Proof. vm_compute. repeat split. Qed.

(** *** Counting the markers of a tree of ordinary files *)

Lemma countEntries_cons (k : string) (v : node) (o : object node) :
  countEntries ((k, v) :: o) = countFiles v + countEntries o.
Proof. reflexivity. Qed.

Lemma countEntries_app (o o' : object node) :
  countEntries (o ++ o') = countEntries o + countEntries o'.
Proof.
  induction o as [|[k v] rest IH]; [reflexivity|].
  change (countEntries (((k, v) :: rest) ++ o'))
    with (countFiles v + countEntries (rest ++ o')).
  rewrite IH, countEntries_cons. lia.
Qed.

Lemma countEntries_insertIndex (n : N) (k : string) (v : node)
  (o : object node) :
  countEntries (insertIndex n k v o) = countEntries o + countFiles v.
Proof.
  induction o as [|[k0 v0] rest IH]; simpl insertIndex.
  - rewrite countEntries_cons. unfold countEntries. simpl. lia.
  - destruct (arrayIndex k0) as [m|]; [destruct (m <? n)%N|];
      rewrite !countEntries_cons, ?IH; lia.
Qed.

Lemma count_assign_new (k : string) (v : node) (o : object node) :
  String.eqb k protoAccessor = false →
  own k o = None → countEntries (assign k v o) = countEntries o + countFiles v.
Proof.
  intros Hproto Hown. unfold assign. rewrite Hown, Hproto.
  destruct (arrayIndex k) as [n|]; [apply countEntries_insertIndex|].
  rewrite countEntries_app, countEntries_cons. unfold countEntries. simpl. lia.
Qed.

Lemma count_assign_old (k : string) (v old : node) (o : object node) :
  own k o = Some old →
  countEntries (assign k v o) + countFiles old = countEntries o + countFiles v.
Proof.
  intros Hown. unfold assign. rewrite Hown. revert Hown.
  induction o as [|[k0 v0] rest IH]; simpl own; simpl setOwn; [discriminate|].
  destruct (String.eqb k0 k).
  - intros H. inversion H; subst. rewrite !countEntries_cons. lia.
  - intros H. rewrite !countEntries_cons. specialize (IH H). lia.
Qed.

(** A fresh path of plain segments is inserted, and adds one marker. *)
Lemma insertPath_fresh_counts (parts : list string) :
  ∀ current : object node,
    forallb plainName parts = true →
    fresh parts current →
    ∃ tree', insertPath parts current = Ok tree'
             ∧ countEntries tree' = countEntries current + 1.
Proof.
  induction parts as [|part rest IH]; intros current Hplain Hfresh;
    [contradiction|].
  simpl in Hplain. apply andb_true_iff in Hplain as [Hp Hrest].
  apply plainName_split in Hp as [Hproto Hmeth].
  destruct rest as [|next rest].
  - simpl in Hfresh. simpl. rewrite Hproto. eexists. split; [reflexivity|].
    now rewrite count_assign_new.
  - rewrite insertPath_step.
    rewrite fresh_step in Hfresh.
    destruct (own part current) as [[|sub]|] eqn:Hown; [contradiction| |].
    + destruct (IH sub Hrest Hfresh) as (sub' & Hins & Hcount).
      rewrite Hins. simpl. eexists. split; [reflexivity|].
      pose proof (count_assign_old part (Dir sub') (Dir sub) current Hown) as H.
      unfold countEntries in *. lia.
    + rewrite Hproto, Hmeth.
      assert (Hnil : fresh (next :: rest) [])
        by (destruct rest; first [exact I|reflexivity]).
      destruct (IH [] Hrest Hnil) as (sub' & Hins & Hcount).
      rewrite Hins. simpl. eexists. split; [reflexivity|].
      rewrite (count_assign_new part (Dir sub') current Hproto Hown).
      change (countFiles (Dir sub')) with (countEntries sub').
      rewrite Hcount. change (countEntries []) with 0. lia.
Qed.

Lemma fresh_nil (parts : list string) : parts ≠ [] → fresh parts [].
Proof. intros H. destruct parts as [|p [|q rest]]; simpl; auto. Qed.

(** Inserting a fresh path leaves fresh every path that neither leads to
    it nor goes through it. *)
Lemma insertPath_keeps_fresh (p : list string) :
  ∀ (q : list string) (current tree' : object node),
    forallb plainName p = true →
    fresh p current →
    insertPath p current = Ok tree' →
    incomparable p q →
    fresh q current →
    fresh q tree'.
Proof.
  induction p as [|a p' IH]; intros q current tree' Hplain Hp Hins [Hpq Hqp] Hq;
    [contradiction|].
  destruct q as [|b q']; [contradiction|].
  simpl in Hplain. apply andb_true_iff in Hplain as [Ha Hrest].
  apply plainName_split in Ha as [Hproto Hmeth].
  destruct (String.eqb a b) eqn:Eab.
  - apply String.eqb_eq in Eab. subst b.
    destruct p' as [|a' p''].
    { exfalso. apply Hpq. exists q'. reflexivity. }
    destruct q' as [|b' q''].
    { exfalso. apply Hqp. exists (a' :: p''). reflexivity. }
    rewrite insertPath_step in Hins.
    rewrite fresh_step in Hp.
    rewrite fresh_step in Hq.
    assert (Hinc : incomparable (a' :: p'') (b' :: q'')).
    { split; intros [k Hk].
      - apply Hpq. exists k. simpl. now rewrite Hk.
      - apply Hqp. exists k. simpl. now rewrite Hk. }
    destruct (own a current) as [[|sub]|] eqn:Hown; [contradiction| |].
    + destruct (insertPath (a' :: p'') sub) as [sub'| |] eqn:Hsub;
        simpl in Hins; try discriminate.
      inversion Hins; subst tree'.
      rewrite fresh_step, own_assign_eq by assumption. eapply IH; eauto.
    + rewrite Hproto, Hmeth in Hins.
      destruct (insertPath (a' :: p'') []) as [sub'| |] eqn:Hsub;
        simpl in Hins; try discriminate.
      inversion Hins; subst tree'.
      rewrite fresh_step, own_assign_eq by assumption.
      eapply (IH (b' :: q'') [] sub'); eauto.
      * now apply fresh_nil.
      * now apply fresh_nil.
  - apply String.eqb_neq in Eab.
    assert (Hsame : own b tree' = own b current).
    { destruct p' as [|a' p''].
      - simpl in Hins. rewrite Hproto in Hins. inversion Hins; subst.
        now apply own_assign_ne.
      - rewrite insertPath_step in Hins.
        rewrite fresh_step in Hp.
        destruct (own a current) as [[|sub]|] eqn:Hown; [contradiction| |].
        + destruct (insertPath (a' :: p'') sub) as [sub'| |];
            simpl in Hins; try discriminate.
          inversion Hins; subst. now apply own_assign_ne.
        + rewrite Hproto, Hmeth in Hins.
          destruct (insertPath (a' :: p'') []) as [sub'| |];
            simpl in Hins; try discriminate.
          inversion Hins; subst. now apply own_assign_ne. }
    destruct q' as [|b' q'']; simpl in Hq |- *; now rewrite Hsame.
Qed.

Lemma segments_nonempty (filePath : string) : Path.segments filePath ≠ [].
Proof.
  unfold Path.segments. induction filePath as [|c s IH]; simpl; [discriminate|].
  destruct (Ascii.eqb c Path.sep); [discriminate|].
  destruct (Str.split Path.sep s); [contradiction|discriminate].
Qed.

Lemma insertAll_counts (files : list string) :
  ∀ tree : object node,
    List.Forall (fun f => forallb plainName (Path.segments f) = true) files →
    List.Forall (fun f => fresh (Path.segments f) tree) files →
    prefixFree (map Path.segments files) →
    ∃ tree', insertAll files tree = Ok tree'
             ∧ countEntries tree' = countEntries tree + length files.
Proof.
  induction files as [|f rest IH]; intros tree Hplain Hfresh Hfree.
  - exists tree. simpl. split; [reflexivity|lia].
  - inversion Hplain as [|? ? Hpf Hprest]; subst.
    inversion Hfresh as [|? ? Hff Hfrest]; subst.
    destruct Hfree as [Hinc Hfree].
    destruct (insertPath_fresh_counts _ tree Hpf Hff) as (t1 & Hins & Hc1).
    assert (Hfresh1 : List.Forall (fun g => fresh (Path.segments g) t1) rest).
    { rewrite List.Forall_forall in *. intros g Hg.
      eapply insertPath_keeps_fresh; eauto.
      apply Hinc. now apply in_map. }
    destruct (IH t1 Hprest Hfresh1 Hfree) as (tree' & Hall & Hc).
    exists tree'. simpl. rewrite Hins. simpl. split; [exact Hall|].
    simpl length. lia.
Qed.

(** For files of which none leads to or through another, as the files of
    a directory tree are, and whose segments read no inherited property,
    the tree is built and has one marker per file. *)
Lemma buildFileTree_counts_files (files : list string) :
  List.Forall (fun f => forallb plainName (Path.segments f) = true) files →
  prefixFree (map Path.segments files) →
  ∃ tree, buildFileTree files = Ok tree ∧ countFiles tree = length files.
Proof.
  intros Hplain Hfree.
  assert (Hfresh : List.Forall (fun f => fresh (Path.segments f) []) files).
  { apply List.Forall_forall. intros f _. apply fresh_nil, segments_nonempty. }
  destruct (insertAll_counts files [] Hplain Hfresh Hfree) as (t & Hall & Hc).
  exists (Dir t). unfold buildFileTree. rewrite Hall. simpl.
  split; [reflexivity|]. exact Hc.
Qed.

(** No tree is returned for a list that has the path [__proto__]. *)
Lemma buildFileTree_no_proto (files : list string) (tree : node) :
  buildFileTree files = Ok tree → ¬ In protoAccessor files.
Proof.
  unfold buildFileTree.
  assert (H : ∀ acc acc', insertAll files acc = Ok acc' →
                          ¬ In protoAccessor files).
  { induction files as [|f rest IH]; intros acc acc' Hall; [intros []|].
    simpl in Hall. intros [->|Hin].
    - vm_compute in Hall. discriminate.
    - destruct (insertPath (Path.segments f) acc) as [t| |]; simpl in Hall;
        try discriminate.
      now apply (IH t acc'). }
  destruct (insertAll files []) as [t| |] eqn:Hall; simpl; try discriminate.
  intros _. now apply (H [] t).
Qed.

(** C8. The claim is that [totalFiles] is the number of file markers in
    the tree. For a project whose only file is [constructor/a.js] the
    walk discovers one file and [totalFiles] is 1, but the tree builder
    reads [current['constructor']], finds the inherited function, does
    not create a directory, and sets the marker on that function: the
    tree of the document is empty. *)
Theorem totalFiles_inherited_directory_name :
  let cfg := Config "/project" "PROJECT_INDEX.json" builtinIgnorePatterns
               defaultExtensions in
  let root := Directory [("constructor", Directory [("a.js", File "x")])] in
  ∃ doc,
    generateIndex cfg root programExtractors (fun _ => Ok tt) "t" = Ok doc
    ∧ scanDirectory cfg EmptyString root = Ok ["constructor/a.js"]
    ∧ totalFiles doc = 1
    ∧ fileTree doc = Dir []
    ∧ countFiles (fileTree doc) = 0.
Proof. vm_compute. eexists. repeat split. Qed.

End TreeFacts.

(** ** The rebuild scheduler *)

Module WatcherFacts.
Import Watcher.

Lemma timeoutDelay_in_range (d : nat) :
  1 ≤ d → (Z.of_nat d <= TIMEOUT_MAX)%Z →
  timeoutDelay (JNumber (Z.of_nat d)) = Ok d.
Proof.
  intros H1 H2. unfold timeoutDelay.
  assert (E : ((1 <=? Z.of_nat d) && (Z.of_nat d <=? TIMEOUT_MAX))%Z = true).
  { apply andb_true_iff. split; apply Z.leb_le; lia. }
  rewrite E. now rewrite Nat2Z.id.
Qed.

Lemma timeoutDelay_positive (v : jsval) : timeoutDelay v ≠ Ok 0.
Proof.
  destruct v; simpl; try discriminate.
  destruct ((1 <=? n)%Z && (n <=? TIMEOUT_MAX)%Z) eqn:E; try discriminate.
  apply andb_true_iff in E as [E _]. apply Z.leb_le in E.
  intros H. inversion H. lia.
Qed.

(** C10. A falsy [debounceMs] option, the number 0 among them, is replaced
    by 1000 in the constructor, and 1000 is then the delay of the timer;
    no option makes the stored delay the number 0, nor the armed delay
    0. *)
Theorem falsy_debounce_becomes_default (o : options)
  (Hfalsy : truthy (opt_debounceMs o) = false) :
  debounceMs (construct o) = JNumber 1000
  ∧ timeoutDelay (debounceMs (construct o)) = Ok 1000
  ∧ debounceMs (construct (Options (JNumber 0))) = JNumber 1000
  ∧ (∀ o' : options, debounceMs (construct o') ≠ JNumber 0)
  ∧ (∀ o' : options, timeoutDelay (debounceMs (construct o')) ≠ Ok 0).
Proof.
  unfold construct, orElse; simpl. rewrite Hfalsy.
  repeat split; try reflexivity.
  - intros o'. destruct (truthy (opt_debounceMs o')) eqn:E; try discriminate.
    intros H. rewrite H in E. discriminate.
  - intros o'. apply timeoutDelay_positive.
Qed.

Lemma falsy_debounce_becomes_default_witness :
  truthy (opt_debounceMs (Options (JNumber 0))) = false
  ∧ debounceMs (construct (Options (JNumber 0))) = JNumber 1000.
Proof.
  split; [reflexivity|].
  apply (falsy_debounce_becomes_default (Options (JNumber 0))).
  reflexivity.
Defined.

(** C7. A change event delivered while a build is in progress is dropped:
    [scheduleRebuild] returns at its guard and leaves the scheduler state
    as it was, so no timer is armed or replaced and nothing records the
    event; once the build finishes the scheduler is where it would be had
    the event not come, and with no timer armed no rebuild follows. *)
Theorem event_during_build_is_dropped (now : nat) (s : state)
  (Hbuilding : isRebuilding s = true) :
  scheduleRebuild now s = Ok s
  ∧ (∀ s', scheduleRebuild now s = Ok s' →
       timers s' = timers s
       ∧ rebuildTimer s' = rebuildTimer s
       ∧ finishBuild s' = finishBuild s
       ∧ (∀ tie events,
            rebuildLog tie events (finishBuild s')
            = rebuildLog tie events (finishBuild s))
       ∧ (timers s = [] → builds (settle (finishBuild s')) = builds s)).
Proof.
  assert (E : scheduleRebuild now s = Ok s).
  { unfold scheduleRebuild. now rewrite Hbuilding. }
  split; [exact E|].
  intros s' Hs'. rewrite E in Hs'. inversion Hs'; subst s'.
  repeat split; try reflexivity.
  intros Hno. unfold settle, finishBuild; simpl. now rewrite Hno.
Qed.

Lemma event_during_build_is_dropped_witness :
  let s := State (JNumber 1000) None true [] 0 [5] in
  isRebuilding s = true ∧ scheduleRebuild 7 s = Ok s.
Proof.
  split; [reflexivity|].
  apply (event_during_build_is_dropped 7 (State (JNumber 1000) None true [] 0 [5])).
  reflexivity.
Defined.

(** The scheduler is idle when [start()] has run its first build. *)
Lemma start_idle (now : nat) (o : options) :
  idle (start now o) ∧ builds (start now o) = [now].
Proof. repeat split. Qed.

Section Debounce.

Local Arguments timeoutDelay : simpl never.

Variable tie : bool.
Variable d : nat.





Lemma last_cons (rest : list nat) :
  ∀ t prev : nat, List.last (t :: rest) prev = List.last rest t.
Proof.
  induction rest as [|n rest IH]; intros t prev; [reflexivity|].
  change (List.last (t :: n :: rest) prev) with (List.last (n :: rest) prev).
  now rewrite !IH.
Qed.



End Debounce.




End WatcherFacts.

(** ** The summary *)

Module SummaryFacts.
Import Indexer.

(** *** The sort *)

Lemma insertBySize_perm (x : string * nat) (l : list (string * nat)) :
  Permutation (insertBySize x l) (x :: l).
Proof.
  induction l as [|y l IH]; simpl; [reflexivity|].
  destruct (snd x <? snd y); [|reflexivity].
  rewrite IH. apply perm_swap.
Qed.

Lemma sortBySize_perm (l : list (string * nat)) :
  Permutation (sortBySize l) l.
Proof.
  induction l as [|x l IH]; simpl; [reflexivity|].
  rewrite insertBySize_perm. now constructor.
Qed.

Lemma insertBySize_sorted (x : string * nat) (l : list (string * nat)) :
  StronglySorted descending l → StronglySorted descending (insertBySize x l).
Proof.
  induction l as [|y l IH]; intros Hs; simpl.
  - repeat constructor.
  - inversion Hs as [|? ? Hl Hy]; subst.
    destruct (snd x <? snd y) eqn:E.
    + constructor; [auto|].
      apply Nat.ltb_lt in E.
      rewrite List.Forall_forall in *. intros z Hz.
      apply (Permutation_in _ (insertBySize_perm x l)) in Hz.
      destruct Hz as [<-|Hz]; [unfold descending; lia|auto].
    + apply Nat.ltb_ge in E.
      constructor; [assumption|].
      constructor; [exact E|].
      rewrite List.Forall_forall in *. intros z Hz.
      specialize (Hy z Hz). unfold descending in *. lia.
Qed.

Lemma sortBySize_sorted (l : list (string * nat)) :
  StronglySorted descending (sortBySize l).
Proof.
  induction l as [|x l IH]; simpl; [constructor|].
  now apply insertBySize_sorted.
Qed.

(** Stability: among the entries of one size, insertion puts the new
    entry first, and so the sort leaves them in their order. *)
Lemma insertBySize_stable (v : nat) (x : string * nat)
  (l : list (string * nat)) :
  List.filter (hasSize v) (insertBySize x l)
  = List.filter (hasSize v) (x :: l).
Proof.
  induction l as [|y l IH]; [reflexivity|].
  simpl insertBySize. destruct (snd x <? snd y) eqn:E; [|reflexivity].
  apply Nat.ltb_lt in E.
  simpl. simpl in IH. rewrite IH. unfold hasSize.
  destruct (snd x =? v) eqn:Ex, (snd y =? v) eqn:Ey; try reflexivity.
  apply Nat.eqb_eq in Ex, Ey. lia.
Qed.

Lemma sortBySize_stable (v : nat) (l : list (string * nat)) :
  List.filter (hasSize v) (sortBySize l) = List.filter (hasSize v) l.
Proof.
  induction l as [|x l IH]; [reflexivity|].
  simpl sortBySize. rewrite insertBySize_stable. simpl. now rewrite IH.
Qed.

Lemma filter_take_prefix {A : Type} (p : A → bool) (n : nat) (l : list A) :
  ∃ k, List.filter p (take n l) = take k (List.filter p l).
Proof.
  revert n. induction l as [|x l IH]; intros n.
  - exists 0. now destruct n.
  - destruct n as [|n]; [now exists 0|].
    destruct (IH n) as [k Hk]. simpl. destruct (p x).
    + exists (S k). simpl. now rewrite Hk.
    + now exists k.
Qed.

Lemma in_drop {A : Type} (n : nat) (l : list A) (y : A) :
  In y (drop n l) → In y l.
Proof.
  revert n. induction l as [|z l IH]; intros [|n] H; simpl in *; eauto.
Qed.

Lemma sorted_take_drop (n : nat) (l : list (string * nat)) :
  StronglySorted descending l →
  ∀ x y, In x (take n l) → In y (drop n l) → snd y ≤ snd x.
Proof.
  revert n. induction l as [|z l IH]; intros n Hs x y Hx Hy.
  - destruct n; contradiction.
  - inversion Hs as [|? ? Hl Hz]; subst.
    destruct n as [|n]; [contradiction|].
    simpl in Hx, Hy. destruct Hx as [<-|Hx].
    + rewrite List.Forall_forall in Hz. apply Hz.
      eapply in_drop; eauto.
    + eapply IH; eauto.
Qed.

(** *** The loop over the mapping *)

Lemma summaryStep_sizes (acc : Summary * list (string * nat))
  (entry : string * metadata) :
  snd (summaryStep acc entry) = snd acc ++ sizedEntries [entry].
Proof.
  destruct acc as [s fs], entry as [p [r|p' ext e]]; simpl.
  - destruct (size r =? 0); simpl; [now rewrite app_nil_r|reflexivity].
  - now rewrite app_nil_r.
Qed.

Lemma sizedEntries_cons (entry : string * metadata) (fm : object metadata) :
  sizedEntries (entry :: fm) = sizedEntries [entry] ++ sizedEntries fm.
Proof.
  destruct entry as [p m]. simpl. now destruct (truthySize m).
Qed.

Lemma fold_sizes (fm : object metadata) :
  ∀ acc, snd (fold_left summaryStep fm acc) = snd acc ++ sizedEntries fm.
Proof.
  induction fm as [|entry fm IH]; intros acc.
  - simpl. now rewrite app_nil_r.
  - simpl fold_left. rewrite IH, summaryStep_sizes.
    rewrite (sizedEntries_cons entry fm).
    rewrite <- List.app_assoc. reflexivity.
Qed.

Lemma largestFiles_computed (fm : object metadata) :
  largestFiles (generateSummary fm) = take 10 (sortBySize (sizedEntries fm)).
Proof.
  unfold generateSummary.
  pose proof (fold_sizes fm (MkSummary 0 0 0 0 ∅ [], [])) as H.
  destruct (fold_left summaryStep fm (MkSummary 0 0 0 0 ∅ [], []))
    as [s fs]. simpl in H. subst fs. reflexivity.
Qed.

Lemma summaryStep_ext (acc : Summary * list (string * nat))
  (entry : string * metadata) :
  filesByExtension (fst (summaryStep acc entry))
  = countExtension (metadataExtension (snd entry))
      (filesByExtension (fst acc)).
Proof. destruct acc as [s fs], entry as [p [r|p' ext e]]; reflexivity. Qed.

Lemma countExtension_lookup (ext key : string) (m : gmap string nat) :
  default 0 (countExtension ext m !! key)
  = default 0 (m !! key)
    + (if String.eqb (extensionKey ext) key then 1 else 0).
Proof.
  unfold countExtension.
  destruct (String.eqb (extensionKey ext) key) eqn:E.
  - apply String.eqb_eq in E. subst key.
    rewrite lookup_insert_eq. reflexivity.
  - apply String.eqb_neq in E.
    rewrite lookup_insert_ne by exact E. simpl. lia.
Qed.

Lemma fold_ext (fm : object metadata) :
  ∀ acc key,
    default 0 (filesByExtension (fst (fold_left summaryStep fm acc)) !! key)
    = default 0 (filesByExtension (fst acc) !! key) + filedUnder key fm.
Proof.
  induction fm as [|entry fm IH]; intros acc key.
  - unfold filedUnder. simpl. lia.
  - simpl fold_left. rewrite IH, summaryStep_ext, countExtension_lookup.
    unfold filedUnder. simpl.
    destruct (String.eqb (extensionKey (metadataExtension (snd entry))) key);
      simpl; lia.
Qed.

Lemma filesByExtension_computed (fm : object metadata) (key : string) :
  default 0 (filesByExtension (generateSummary fm) !! key) = filedUnder key fm.
Proof.
  unfold generateSummary.
  pose proof (fold_ext fm (MkSummary 0 0 0 0 ∅ [], []) key) as H.
  destruct (fold_left summaryStep fm (MkSummary 0 0 0 0 ∅ [], []))
    as [s fs]. simpl in *. rewrite H. now rewrite lookup_empty.
Qed.

(** C5, as stated, fails: the ten largest files of a mapping with two
    files, of sizes 10 and 0, are both of them, but the empty file is not
    a candidate of the ranking and [largestFiles] holds the other file
    alone. *)
Lemma largestFiles_leaves_out_empty_file :
  let fileMetadata :=
    [("a", bareRecord "a" ".js" 10); ("e", bareRecord "e" ".js" 0)] in
  largestFiles (generateSummary fileMetadata) = [("a", 10)]
  ∧ take 10 (sortBySize (recordedSizes fileMetadata)) = [("a", 10); ("e", 0)]
  ∧ ¬ (∀ fm : object metadata,
         largestFiles (generateSummary fm)
         = take 10 (sortBySize (recordedSizes fm))).
Proof.
  split; [rewrite largestFiles_computed; reflexivity|].
  split; [reflexivity|].
  intros H.
  specialize (H [("a", bareRecord "a" ".js" 10); ("e", bareRecord "e" ".js" 0)]).
  rewrite largestFiles_computed in H. discriminate H.
Qed.

End SummaryFacts.

(** ** The build *)

Module BuildFacts.
Import Indexer.

Lemma in_assign {V : Type} (key : string) (v : V) (o : object V)
  (k : string) (x : V) :
  In (k, x) (assign key v o) → (k, x) = (key, v) ∨ In (k, x) o.
Proof.
  unfold assign. destruct (own key o) as [old|] eqn:Hown.
  - clear Hown. induction o as [|[k0 v0] rest IH]; simpl; [tauto|].
    destruct (String.eqb k0 key) eqn:E; simpl.
    + apply String.eqb_eq in E. subst k0.
      intros [H|H]; [left|right; right]; auto.
    + intros [H|H]; [right; left; auto|].
      destruct (IH H); auto.
  - destruct (String.eqb key protoAccessor); [now right|].
    destruct (arrayIndex key) as [n|].
    + clear Hown. induction o as [|[k0 v0] rest IH]; simpl.
      * intros [H|[]]. now left.
      * destruct (arrayIndex k0) as [m|]; [destruct (m <? n)%N|]; simpl;
          try (intros [H|H]; [now left|now right]).
        intros [H|H]; [right; now left|].
        destruct (IH H); auto.
    + intros H. apply in_app_or in H as [H|[H|[]]]; auto.
Qed.

Lemma own_in {V : Type} (key : string) (v : V) (o : object V) :
  own key o = Some v → In (key, v) o.
Proof.
  induction o as [|[k0 v0] rest IH]; simpl; [discriminate|].
  destruct (String.eqb k0 key) eqn:E.
  - apply String.eqb_eq in E. subst k0. intros H. inversion H. now left.
  - intros H. right. auto.
Qed.

Section Build.

Variable cfg : config.
Variable root : fsnode.
Variable extractors : string → string → result fragment.
Variable writeFileSync : string → result unit.
Variable now : string.

Let extract := extractFileMetadata root extractors.

(** The record of a file carries the path it was asked for. *)
Lemma extractFileMetadata_path (filePath : string) (m : metadata) :
  extract filePath = Ok m → metadataPath m = filePath.
Proof.
  unfold extract, extractFileMetadata.
  destruct (readFileSync root filePath) as [content|e|]; simpl;
    try (intros H; inversion H; reflexivity); try discriminate.
  destruct (extractors (Path.extname filePath) content) as [frag|e|]; simpl;
    intros H; inversion H; reflexivity.
Qed.

Lemma processFiles_total (files : list string) :
  (∀ f, In f files → ∃ m, extract f = Ok m) →
  ∀ acc, ∃ fm, processFiles root extractors files acc = Ok fm.
Proof.
  induction files as [|f rest IH]; intros Hall acc; simpl.
  - now exists acc.
  - destruct (Hall f (or_introl eq_refl)) as [m Hm].
    fold extract. rewrite Hm. simpl. apply IH.
    intros g Hg. apply Hall. now right.
Qed.

Lemma processFiles_own (files : list string) :
  ¬ In protoAccessor files →
  ∀ acc fm,
    processFiles root extractors files acc = Ok fm →
    (∀ f, In f files → ∃ m, extract f = Ok m ∧ own f fm = Some m)
    ∧ (∀ f, ¬ In f files → own f fm = own f acc).
Proof.
  induction files as [|f0 rest IH]; intros Hproto acc fm Hrun;
    simpl in Hrun.
  - inversion Hrun; subst. split; [intros f []|auto].
  - assert (Hrest : ¬ In protoAccessor rest)
      by (intros H; apply Hproto; now right).
    specialize (IH Hrest).
    assert (Hf0 : String.eqb f0 protoAccessor = false).
    { apply String.eqb_neq. intros ->. apply Hproto. now left. }
    fold extract in Hrun.
    destruct (extract f0) as [m0|e|] eqn:Hm0; simpl in Hrun;
      try discriminate.
    pose proof (extractFileMetadata_path f0 m0 Hm0) as Hpath.
    rewrite Hpath in Hrun.
    destruct (IH _ _ Hrun) as [Hin Hout]. split.
    + intros f Hf.
      destruct (in_dec String.string_dec f rest) as [Hr|Hr]; [auto|].
      destruct Hf as [<-|Hf]; [|contradiction].
      exists m0. split; [assumption|].
      rewrite (Hout f0 Hr). now apply TreeFacts.own_assign_eq.
    + intros f Hf.
      rewrite (Hout f) by (intros H; apply Hf; now right).
      apply TreeFacts.own_assign_ne. intros ->. apply Hf. now left.
Qed.

Lemma processFiles_entries (files : list string) :
  ∀ acc fm,
    processFiles root extractors files acc = Ok fm →
    ∀ p m, In (p, m) fm →
           (In p files ∧ extract p = Ok m) ∨ In (p, m) acc.
Proof.
  induction files as [|f0 rest IH]; intros acc fm Hrun p m Hpm;
    simpl in Hrun.
  - inversion Hrun; subst. now right.
  - fold extract in Hrun.
    destruct (extract f0) as [m0|e|] eqn:Hm0; simpl in Hrun;
      try discriminate.
    pose proof (extractFileMetadata_path f0 m0 Hm0) as Hpath.
    rewrite Hpath in Hrun.
    destruct (IH _ _ Hrun p m Hpm) as [[Hin Hex]|Hacc].
    + left. split; [now right|assumption].
    + apply in_assign in Hacc as [Heq|Hacc]; [|now right].
      inversion Heq; subst. left. split; [now left|assumption].
Qed.

(** What a build that returns has gone through. *)
Lemma generateIndex_returns (doc : IndexDocument) :
  generateIndex cfg root extractors writeFileSync now = Ok doc →
  ∃ discovered tree fm,
    scanDirectory cfg EmptyString root = Ok discovered
    ∧ buildFileTree discovered = Ok tree
    ∧ processFiles root extractors discovered [] = Ok fm
    ∧ doc = MkIndexDocument now (rootDir cfg) (length discovered) tree fm
              (generateSummary fm).
Proof.
  unfold generateIndex.
  destruct (scanDirectory cfg EmptyString root) as [found|e|] eqn:Hscan;
    simpl; try discriminate.
  destruct (buildFileTree found) as [tree|e|] eqn:Htree; simpl;
    try discriminate.
  destruct (processFiles root extractors found []) as [fm|e|] eqn:Hfm;
    simpl; try discriminate.
  destruct (writeFileSync (outputFile cfg)) as [u|e|]; simpl;
    try discriminate.
  intros H. inversion H.
  exists found, tree, fm. repeat split; assumption.
Qed.

End Build.

(** *** The keys of the files mapping *)

Lemma own_none_keys {V : Type} (key : string) (o : object V) :
  ¬ In key (map fst o) → own key o = None.
Proof.
  induction o as [|[k v] rest IH]; simpl; [reflexivity|]. intros H.
  destruct (String.eqb k key) eqn:E.
  - apply String.eqb_eq in E. tauto.
  - apply IH. tauto.
Qed.

(** A new ordinary key is added last. *)
Lemma assign_fresh {V : Type} (key : string) (v : V) (o : object V) :
  ordinaryKey key = true →
  ¬ In key (map fst o) → assign key v o = o ++ [(key, v)].
Proof.
  unfold ordinaryKey, assign. intros Hord Hnew.
  apply andb_true_iff in Hord as [Hproto Hindex].
  apply negb_true_iff in Hproto.
  rewrite (own_none_keys key o Hnew), Hproto.
  now destruct (arrayIndex key).
Qed.

Lemma processFiles_keys (root : fsnode)
  (extractors : string → string → result fragment) (files : list string) :
  ∀ acc fm,
    forallb ordinaryKey files = true →
    List.NoDup (map fst acc ++ files) →
    processFiles root extractors files acc = Ok fm →
    map fst fm = map fst acc ++ files.
Proof.
  induction files as [|f rest IH]; intros acc fm Hord Hnd Hrun;
    simpl in Hrun.
  - inversion Hrun; subst. now rewrite app_nil_r.
  - simpl in Hord. apply andb_true_iff in Hord as [Hf Hrest].
    destruct (extractFileMetadata root extractors f) as [m| |] eqn:Hm;
      simpl in Hrun; try discriminate.
    rewrite (extractFileMetadata_path root extractors f m Hm) in Hrun.
    assert (Hfresh : ¬ In f (map fst acc)).
    { intros Hin. apply List.NoDup_remove_2 in Hnd. apply Hnd.
      apply in_or_app. now left. }
    rewrite assign_fresh in Hrun by assumption.
    apply IH in Hrun; [|assumption|].
    + rewrite Hrun, map_app. simpl. now rewrite <- List.app_assoc.
    + rewrite map_app. simpl. rewrite <- List.app_assoc. exact Hnd.
Qed.

(** The mapping of a build lists the discovered files in discovery order
    when they are distinct and none of them is an array index or the
    prototype accessor. *)
Lemma files_in_discovery_order (cfg : config) (root : fsnode)
  (extractors : string → string → result fragment)
  (writeFileSync : string → result unit) (now : string)
  (doc : IndexDocument) (discovered : list string) :
  generateIndex cfg root extractors writeFileSync now = Ok doc →
  scanDirectory cfg EmptyString root = Ok discovered →
  List.NoDup discovered →
  forallb ordinaryKey discovered = true →
  map fst (files doc) = discovered.
Proof.
  intros Hbuild Hscan Hdistinct Hord.
  destruct (generateIndex_returns _ _ _ _ _ _ Hbuild)
    as (found & tree & fm & Hscan' & Htree & Hfm & ->).
  rewrite Hscan in Hscan'. inversion Hscan'; subst found. simpl.
  apply (processFiles_keys root extractors discovered [] fm Hord Hdistinct Hfm).
Qed.

(** A key with a dot in its base name is an ordinary key: an array index
    is made of digits, and so has no extension. *)
Lemma decimal_chars (s : string) :
  ∀ acc n, decimal s acc = Some n →
           List.Forall (fun c => digitValue c ≠ None) (list_ascii_of_string s).
Proof.
  induction s as [|c s IH]; intros acc n H; simpl in *; [constructor|].
  destruct (digitValue c) as [v|] eqn:E; [|discriminate].
  constructor; [simpl; rewrite E; discriminate|eauto].
Qed.

Lemma digit_is_not (x c : ascii) :
  digitValue x = None → digitValue c ≠ None → Ascii.eqb c x = false.
Proof.
  intros Hx Hc. destruct (Ascii.eqb c x) eqn:E; [|reflexivity].
  apply Ascii.eqb_eq in E. subst c. contradiction.
Qed.

Lemma split_absent (sep : ascii) (s : string) :
  List.Forall (fun c => Ascii.eqb c sep = false) (list_ascii_of_string s) →
  Str.split sep s = [s].
Proof.
  induction s as [|c s IH]; simpl; [reflexivity|]. intros H.
  inversion H as [|? ? Hc Hs]; subst. rewrite Hc, (IH Hs). reflexivity.
Qed.

Lemma fromLastDot_absent (s : string) :
  List.Forall (fun c => Ascii.eqb c "." = false) (list_ascii_of_string s) →
  Path.fromLastDot s = None.
Proof.
  induction s as [|c s IH]; simpl; [reflexivity|]. intros H.
  inversion H as [|? ? Hc Hs]; subst. now rewrite (IH Hs), Hc.
Qed.

Lemma arrayIndex_extname (key : string) (n : N) :
  arrayIndex key = Some n → Path.extname key = EmptyString.
Proof.
  destruct key as [|c rest]; [discriminate|]. unfold arrayIndex.
  destruct (Ascii.eqb c "0" && negb (Str.isEmpty rest)); [discriminate|].
  destruct (decimal (String c rest) 0) as [m|] eqn:Hdec; [|discriminate].
  intros _. apply decimal_chars in Hdec.
  assert (Hsep : List.Forall (fun x => Ascii.eqb x Path.sep = false)
                   (list_ascii_of_string (String c rest))).
  { eapply List.Forall_impl; [|exact Hdec].
    intros x. now apply digit_is_not. }
  assert (Hdot : List.Forall (fun x => Ascii.eqb x "." = false)
                   (list_ascii_of_string rest)).
  { simpl in Hdec. inversion Hdec as [|? ? _ Hrest]; subst.
    eapply List.Forall_impl; [|exact Hrest].
    intros x. now apply digit_is_not. }
  unfold Path.extname, Path.basename, Path.segments.
  rewrite (split_absent _ _ Hsep).
  change (List.last [String c rest] EmptyString) with (String c rest).
  cbv beta iota.
  rewrite (fromLastDot_absent rest Hdot).
  match goal with |- (if ?b then _ else _) = _ => now destruct b end.
Qed.

Lemma extension_ordinaryKey (key : string) :
  Path.extname key ≠ EmptyString → ordinaryKey key = true.
Proof.
  intros Hext. unfold ordinaryKey. apply andb_true_iff. split.
  - apply negb_true_iff, String.eqb_neq. intros ->. now apply Hext.
  - destruct (arrayIndex key) as [n|] eqn:E; [|reflexivity].
    now apply arrayIndex_extname in E.
Qed.

Lemma readFileSync_modelled (root : fsnode) (filePath : string) :
  readFileSync root filePath ≠ Unmodelled.
Proof.
  unfold readFileSync.
  destruct (lookupPath (Path.segments filePath) root) as [[| | | |]|];
    discriminate.
Qed.

(** C3. A file whose read raises, or whose scan raises, gets from
    [extractFileMetadata] the record of the [catch] block: its path, its
    extension and the message of the error, and no other field.
    [extractFileMetadata] returns a record for every file, and the build
    goes on over all the files: once the walk and the tree are done and
    the output can be written, [generateIndex] returns a document that
    counts every discovered file and holds for each the record that its
    extraction returned. *)
Theorem extraction_error_is_recorded_not_raised
  (cfg : config) (root : fsnode)
  (extractors : string → string → result fragment)
  (writeFileSync : string → result unit) (now : string)
  (Hmodelled : ∀ ext content, extractors ext content ≠ Unmodelled) :
  (∀ filePath message,
     (readFileSync root filePath = Err message
      ∨ ∃ content,
          readFileSync root filePath = Ok content
          ∧ extractors (Path.extname filePath) content = Err message) →
     extractFileMetadata root extractors filePath
     = Ok (Failed filePath (Path.extname filePath) message))
  ∧ (∀ filePath, ∃ m, extractFileMetadata root extractors filePath = Ok m)
  ∧ (∀ discovered tree,
       scanDirectory cfg EmptyString root = Ok discovered →
       buildFileTree discovered = Ok tree →
       writeFileSync (outputFile cfg) = Ok tt →
       ∃ doc,
         generateIndex cfg root extractors writeFileSync now = Ok doc
         ∧ totalFiles doc = length discovered
         ∧ ∀ f, In f discovered →
                ∃ m, extractFileMetadata root extractors f = Ok m
                     ∧ own f (files doc) = Some m).
Proof.
  assert (Htotal : ∀ filePath,
             ∃ m, extractFileMetadata root extractors filePath = Ok m).
  { intros filePath. unfold extractFileMetadata.
    pose proof (readFileSync_modelled root filePath) as Hread.
    destruct (readFileSync root filePath) as [content|e|]; simpl;
      [|eauto|contradiction].
    pose proof (Hmodelled (Path.extname filePath) content) as Hscan.
    destruct (extractors (Path.extname filePath) content) as [frag|e|];
      simpl; [eauto|eauto|contradiction]. }
  split; [|split; [exact Htotal|]].
  - intros filePath message [Hread|(content & Hread & Hscan)];
      unfold extractFileMetadata; rewrite Hread; simpl; [reflexivity|].
    rewrite Hscan. reflexivity.
  - intros discovered tree Hscan Htree Hwrite.
    destruct (processFiles_total root extractors discovered
                (fun f _ => Htotal f) []) as [fm Hfm].
    exists (MkIndexDocument now (rootDir cfg) (length discovered) tree fm
              (generateSummary fm)).
    split; [|split; [reflexivity|]].
    + unfold generateIndex. rewrite Hscan; simpl. rewrite Htree; simpl.
      rewrite Hfm; simpl. rewrite Hwrite. reflexivity.
    + intros f Hf. simpl.
      now apply (proj1 (processFiles_own root extractors discovered
                          (TreeFacts.buildFileTree_no_proto _ _ Htree)
                          [] fm Hfm)).
Qed.

Lemma extraction_error_is_recorded_not_raised_witness :
  let cfg := Config "/project" "PROJECT_INDEX.json" builtinIgnorePatterns
               defaultExtensions in
  let root := Directory [("bad.ts", BrokenFile "EACCES: permission denied");
                         ("ok.ts", File "export function add(a, b) {}")] in
  extractFileMetadata root programExtractors "bad.ts"
  = Ok (Failed "bad.ts" ".ts" "EACCES: permission denied")
  ∧ ∃ doc,
      generateIndex cfg root programExtractors (fun _ => Ok tt) "t" = Ok doc
      ∧ totalFiles doc = 2.
Proof.
  intros cfg root.
  assert (Hmodelled : ∀ ext content, programExtractors ext content ≠ Unmodelled)
    by (intros; discriminate).
  pose proof (extraction_error_is_recorded_not_raised cfg root
                programExtractors (fun _ => Ok tt) "t" Hmodelled)
    as (Hfailed & _ & Hbuild).
  split.
  - apply Hfailed. left. reflexivity.
  - destruct (Hbuild ["bad.ts"; "ok.ts"]
                (Dir [("bad.ts", FileMarker); ("ok.ts", FileMarker)])
                eq_refl eq_refl eq_refl) as (doc & Hdoc & Hcount & _).
    exists doc. split; assumption.
Defined.

Lemma in_take {A : Type} (n : nat) (l : list A) (x : A) :
  In x (take n l) → In x l.
Proof.
  revert n. induction l as [|z l IH]; intros [|n] H; simpl in *;
    try contradiction.
  destruct H; eauto.
Qed.

Lemma sizedEntries_in (fm : object metadata) (p : string) (n : nat) :
  In (p, n) (sizedEntries fm) → ∃ m, In (p, m) fm ∧ truthySize m = Some n.
Proof.
  induction fm as [|[q m] rest IH]; simpl; [contradiction|].
  destruct (truthySize m) as [k|] eqn:E.
  - intros [H|H].
    + inversion H; subst. exists m. split; [now left|assumption].
    + destruct (IH H) as (m' & Hin & Hsz). exists m'. split; [now right|auto].
  - intros H. destruct (IH H) as (m' & Hin & Hsz).
    exists m'. split; [now right|auto].
Qed.

Lemma filedUnder_in (fm : object metadata) (p : string) (m : metadata) :
  In (p, m) fm → 1 ≤ filedUnder (extensionKey (metadataExtension m)) fm.
Proof.
  unfold filedUnder. induction fm as [|[q m'] rest IH]; simpl; [contradiction|].
  intros [H|H].
  - inversion H; subst. rewrite String.eqb_refl. simpl. lia.
  - specialize (IH H).
    destruct (String.eqb (extensionKey (metadataExtension m'))
                (extensionKey (metadataExtension m))); simpl; lia.
Qed.

(** C9. In a document that a build returns, a file whose record has size
    0, or is the record of a failed extraction, is not in [largestFiles];
    it is counted under its extension in [filesByExtension], whose count
    for that extension is the number of records filed under it; and it
    is one of the discovered files that [totalFiles] counts. *)
Theorem unsized_file_counted_but_not_ranked
  (cfg : config) (root : fsnode)
  (extractors : string → string → result fragment)
  (writeFileSync : string → result unit) (now : string)
  (doc : IndexDocument) (p : string) (m : metadata)
  (Hbuild : generateIndex cfg root extractors writeFileSync now = Ok doc)
  (Hentry : own p (files doc) = Some m)
  (Hunsized : (∃ ext e, m = Failed p ext e)
              ∨ (∃ r, m = Extracted r ∧ size r = 0)) :
  ¬ In p (map fst (largestFiles (summary doc)))
  ∧ filesByExtension (summary doc) !! extensionKey (metadataExtension m)
    = Some (filedUnder (extensionKey (metadataExtension m)) (files doc))
  ∧ 1 ≤ filedUnder (extensionKey (metadataExtension m)) (files doc)
  ∧ ∃ discovered,
      scanDirectory cfg EmptyString root = Ok discovered
      ∧ In p discovered
      ∧ totalFiles doc = length discovered.
Proof.
  destruct (generateIndex_returns _ _ _ _ _ _ Hbuild)
    as (discovered & tree & fm & Hscan & Htree & Hfm & ->).
  simpl in *.
  assert (Hin : In (p, m) fm) by now apply own_in.
  assert (Hsize : truthySize m = None).
  { destruct Hunsized as [(ext & e & ->)|(r & -> & Hz)]; simpl;
      [reflexivity|]. now rewrite Hz. }
  destruct (processFiles_entries root extractors discovered [] fm Hfm p m Hin)
    as [[Hdisc Hex]|[]].
  assert (Hcount := filedUnder_in fm p m Hin).
  split; [|split; [|split]].
  - intros Hranked. rewrite SummaryFacts.largestFiles_computed in Hranked.
    apply in_map_iff in Hranked as ([q n] & Hq & Hranked). simpl in Hq.
    subst q. apply in_take in Hranked.
    apply (Permutation_in _ (SummaryFacts.sortBySize_perm _)) in Hranked.
    apply sizedEntries_in in Hranked as (m' & Hin' & Hsz').
    destruct (processFiles_entries root extractors discovered [] fm Hfm
                p m' Hin') as [[_ Hex']|[]].
    rewrite Hex in Hex'. inversion Hex'; subst m'. congruence.
  - pose proof (SummaryFacts.filesByExtension_computed fm
                  (extensionKey (metadataExtension m))) as Hlookup.
    destruct (filesByExtension (generateSummary fm)
              !! extensionKey (metadataExtension m)) as [k|];
      simpl in Hlookup; [now subst k|lia].
  - exact Hcount.
  - exists discovered. auto.
Qed.

Lemma unsized_file_counted_but_not_ranked_witness :
  let cfg := Config "/project" "PROJECT_INDEX.json" builtinIgnorePatterns
               defaultExtensions in
  let root := Directory [("empty.js", File EmptyString);
                         ("big.js", File "const A = 1")] in
  ∃ doc,
    generateIndex cfg root programExtractors (fun _ => Ok tt) "t" = Ok doc
    ∧ own "empty.js" (files doc) = Some (bareRecord "empty.js" ".js" 0)
    ∧ ¬ In "empty.js" (map fst (largestFiles (summary doc)))
    ∧ 1 ≤ filedUnder ".js" (files doc).
Proof.
  intros cfg root.
  destruct (generateIndex cfg root programExtractors (fun _ => Ok tt) "t")
    as [doc| |] eqn:Hdoc; try (vm_compute in Hdoc; discriminate).
  exists doc. split; [reflexivity|].
  assert (Hentry : own "empty.js" (files doc)
                   = Some (bareRecord "empty.js" ".js" 0)).
  { vm_compute in Hdoc. inversion Hdoc. reflexivity. }
  split; [exact Hentry|].
  destruct (unsized_file_counted_but_not_ranked cfg root programExtractors
              (fun _ => Ok tt) "t" doc "empty.js"
              (bareRecord "empty.js" ".js" 0) Hdoc Hentry)
    as (Hnot & _ & Hcount & _).
  - right. eexists. split; reflexivity.
  - split; [exact Hnot|exact Hcount].
Defined.

End BuildFacts.

(** ** The ranking of the files by size *)

Module RankingFacts.
Import Indexer.

(** C5, amended. [largestFiles] holds the ten largest, or all if they are
    fewer, of the files whose record has a size other than 0, in
    descending order of size: every such file left out is no larger than
    any file listed, and the files of one size appear in the order in
    which the mapping lists its entries, the first of them first. The
    mapping of a build lists the discovered files in discovery order when
    they are distinct and none of them is an array index or [__proto__];
    paths that are array indices are listed first, in ascending numeric
    order, so that files 10 and 9 of one size, discovered in that order,
    are ranked 9, 10. For sizes 10, 50, 5, 50 at paths a, b, c, d the
    list is b, d, a, c. *)
Theorem largestFiles_top_ten_stable (fileMetadata : object metadata) :
  let ranked := largestFiles (generateSummary fileMetadata) in
  let candidates := sizedEntries fileMetadata in
  length ranked = Nat.min 10 (length candidates)
  ∧ StronglySorted descending ranked
  ∧ (∃ others,
       Permutation candidates (ranked ++ others)
       ∧ ∀ x y, In x ranked → In y others → snd y ≤ snd x)
  ∧ (∀ v, ∃ k,
       List.filter (hasSize v) ranked
       = take k (List.filter (hasSize v) candidates))
  ∧ (∀ cfg root extractors writeFileSync now doc discovered,
       generateIndex cfg root extractors writeFileSync now = Ok doc →
       scanDirectory cfg EmptyString root = Ok discovered →
       List.NoDup discovered →
       forallb ordinaryKey discovered = true →
       map fst (files doc) = discovered)
  ∧ (let cfg := Config "/project" "PROJECT_INDEX.json" builtinIgnorePatterns
                  [EmptyString] in
     let root := Directory [("10", File "xx"); ("9", File "yy")] in
     ∃ doc,
       generateIndex cfg root programExtractors (fun _ => Ok tt) "t" = Ok doc
       ∧ scanDirectory cfg EmptyString root = Ok ["10"; "9"]
       ∧ map fst (files doc) = ["9"; "10"]
       ∧ largestFiles (summary doc) = [("9", 2); ("10", 2)])
  ∧ largestFiles
      (generateSummary
         [("a", bareRecord "a" ".js" 10); ("b", bareRecord "b" ".js" 50);
          ("c", bareRecord "c" ".js" 5); ("d", bareRecord "d" ".js" 50)])
    = [("b", 50); ("d", 50); ("a", 10); ("c", 5)].
Proof.
  intros ranked candidates. subst ranked.
  rewrite SummaryFacts.largestFiles_computed. fold candidates.
  pose proof (SummaryFacts.sortBySize_sorted candidates) as Hsorted.
  split; [|split; [|split; [|split; [|split; [|split]]]]].
  - rewrite length_take,
      (Permutation_length (SummaryFacts.sortBySize_perm candidates)).
    reflexivity.
  - clear -Hsorted. revert Hsorted. generalize (sortBySize candidates).
    intros l. generalize 10. induction l as [|x l IH]; intros n Hs.
    + destruct n; constructor.
    + destruct n as [|n]; [constructor|].
      inversion Hs as [|? ? Hl Hx]; subst. simpl. constructor; [auto|].
      rewrite List.Forall_forall in *. intros z Hz. apply Hx.
      clear -Hz. revert n Hz. induction l as [|y l IH]; intros [|n] Hz;
        simpl in *; try contradiction.
      destruct Hz as [->|Hz]; eauto.
  - exists (drop 10 (sortBySize candidates)). split.
    + rewrite take_drop. symmetry. apply SummaryFacts.sortBySize_perm.
    + now apply SummaryFacts.sorted_take_drop.
  - intros v.
    destruct (SummaryFacts.filter_take_prefix (hasSize v) 10
                (sortBySize candidates)) as [k Hk].
    exists k. now rewrite Hk, SummaryFacts.sortBySize_stable.
  - intros cfg root extractors writeFileSync now doc discovered.
    apply BuildFacts.files_in_discovery_order.
  - vm_compute. eexists. repeat split.
  - reflexivity.
Qed.

End RankingFacts.


(** ** The extractors *)

Module ExtractorFacts.
Import Indexer.

(** *** The scan loops *)

Lemma fold_push {M : Type} (g : M → string) (ms : list M) :
  ∀ l, fold_left (fun l m => push l (g m)) ms l = l ++ map g ms.
Proof.
  induction ms as [|m ms IH]; intros l; simpl.
  - now rewrite app_nil_r.
  - rewrite IH. unfold push. now rewrite <- List.app_assoc.
Qed.

Lemma fold_appending {M : Type} (step : list string → M → list string)
  (g : M → list string) (ms : list M) :
  (∀ l m, step l m = l ++ g m) →
  fold_left step ms [] = concat (map g ms).
Proof.
  intros Hstep.
  assert (H : ∀ l, fold_left step ms l = l ++ concat (map g ms)).
  { induction ms as [|m ms IH]; intros l; simpl.
    - now rewrite app_nil_r.
    - rewrite IH, Hstep. now rewrite <- List.app_assoc. }
  apply (H []).
Qed.

Lemma scanPush_all (regex : RegExp.regex) (i : nat) (content : string)
  (l : list string) :
  scanPush regex i content l
  = l ++ map (fun m => cap m i) (RegExp.execAll regex content).
Proof. apply fold_push. Qed.

Lemma scanPushTrim_all (regex : RegExp.regex) (i : nat) (content : string)
  (l : list string) :
  scanPushTrim regex i content l
  = l ++ map (fun m => Str.trim (cap m i)) (RegExp.execAll regex content).
Proof. apply (fold_push (fun m => Str.trim (cap m i))). Qed.

Lemma scanPushUnless_all (banned : list string) (regex : RegExp.regex)
  (i : nat) (content : string) (l : list string) :
  scanPushUnless banned regex i content l
  = l ++ List.filter (fun x => negb (existsb (String.eqb x) banned))
           (map (fun m => cap m i) (RegExp.execAll regex content)).
Proof.
  unfold scanPushUnless. generalize (RegExp.execAll regex content).
  intros ms. revert l. induction ms as [|m ms IH]; intros l; simpl.
  - now rewrite app_nil_r.
  - rewrite IH. destruct (existsb (String.eqb (cap m i)) banned); simpl;
      [reflexivity|]. unfold push. now rewrite <- List.app_assoc.
Qed.

Lemma existsb_eqb_in (x : string) (l : list string) :
  existsb (String.eqb x) l = true ↔ In x l.
Proof.
  rewrite existsb_exists. split.
  - intros (y & Hy & E). apply String.eqb_eq in E. now subst.
  - intros H. exists x. split; [assumption|apply String.eqb_refl].
Qed.

Lemma addsOnlyNew_refl (l : list string) : addsOnlyNew l l.
Proof.
  exists []. rewrite app_nil_r. repeat split; [constructor|intros x []].
Qed.

Lemma addsOnlyNew_trans (l1 l2 l3 : list string) :
  addsOnlyNew l1 l2 → addsOnlyNew l2 l3 → addsOnlyNew l1 l3.
Proof.
  intros (a1 & -> & Hn1 & Hd1) (a2 & -> & Hn2 & Hd2).
  exists (a1 ++ a2). split; [now rewrite <- List.app_assoc|]. split.
  - apply List.NoDup_app; [assumption|assumption|].
    intros x Hx1 Hx2. apply (Hd2 x Hx2). apply in_or_app. now right.
  - intros x Hx Hl. apply in_app_or in Hx as [Hx|Hx].
    + now apply (Hd1 x).
    + apply (Hd2 x Hx). apply in_or_app. now left.
Qed.

Lemma pushNew_addsOnlyNew (l : list string) (x : string) :
  addsOnlyNew l (pushNew l x).
Proof.
  unfold pushNew. destruct (existsb (String.eqb x) l) eqn:E.
  - apply addsOnlyNew_refl.
  - exists [x]. split; [reflexivity|]. split.
    + repeat constructor. intros [].
    + intros y [<-|[]] Hin. apply existsb_eqb_in in Hin. congruence.
Qed.

Lemma scanPushNew_addsOnlyNew (regex : RegExp.regex) (i : nat)
  (content : string) (l : list string) :
  addsOnlyNew l (scanPushNew regex i content l).
Proof.
  unfold scanPushNew. generalize (RegExp.execAll regex content).
  intros ms. revert l. induction ms as [|m ms IH]; intros l; simpl.
  - apply addsOnlyNew_refl.
  - eapply addsOnlyNew_trans; [apply pushNew_addsOnlyNew|apply IH].
Qed.

(** Every name that a guarded scan captures is in the category in the
    end. *)
Lemma scanPushNew_records (regex : RegExp.regex) (i : nat)
  (content : string) (l : list string) (m : RegExp.matchObj) :
  In m (RegExp.execAll regex content) →
  In (cap m i) (scanPushNew regex i content l).
Proof.
  unfold scanPushNew. generalize (RegExp.execAll regex content).
  intros ms. revert l. induction ms as [|m0 ms IH]; intros l; simpl;
    [contradiction|].
  intros [->|Hin]; [|now apply IH].
  assert (Hkeep : ∀ ms' l', In (cap m i) l' →
            In (cap m i) (fold_left (fun l m => pushNew l (cap m i)) ms' l')).
  { induction ms' as [|m' ms' IH']; intros l' Hl'; simpl; [assumption|].
    apply IH'. unfold pushNew, push.
    destruct (existsb (String.eqb (cap m' i)) l'); [assumption|].
    apply in_or_app. now left. }
  apply Hkeep. unfold pushNew, push.
  destruct (existsb (String.eqb (cap m i)) l) eqn:E.
  - now apply existsb_eqb_in.
  - apply in_or_app. right. now left.
Qed.

Lemma addsOnlyNew_nil (l : list string) : addsOnlyNew [] l → List.NoDup l.
Proof. intros (added & -> & Hn & _). exact Hn. Qed.

(** C4, as stated, fails: the Python extractor pushes every match of
    its function pattern, so a name defined twice is recorded twice; and
    in the JavaScript extractor the export scan pushes without a test, so
    a function exported twice (two overload signatures) is recorded
    twice. *)
Lemma declaration_recorded_twice :
  f_functions (extractByExtension ".py" "def f(x): pass
def f(y): pass") = Some ["f"; "f"]
  ∧ f_functions (extractByExtension ".ts"
      "export function f(a: string): void; export function f(a: number): void;")
    = Some ["f"; "f"]
  ∧ ¬ (∀ ext content names,
         f_functions (extractByExtension ext content) = Some names →
         List.NoDup names).
Proof.
  split; [vm_compute; reflexivity|]. split; [vm_compute; reflexivity|].
  intros H.
  specialize (H ".py" "def f(x): pass
def f(y): pass" ["f"; "f"]).
  assert (Hdup : List.NoDup ["f"; "f"]) by (apply H; vm_compute; reflexivity).
  inversion Hdup as [|? ? Hnotin _]. apply Hnotin. now left.
Qed.

(** C4, amended. In the JavaScript and TypeScript extractor the scans
    that follow the export scan add an identifier to its category only
    when the category does not hold it yet: constants hold each
    identifier once, and functions, classes, interfaces and types are
    the names of the export scan followed by identifiers that are new
    and pairwise distinct. The extractors of the other languages record
    every match of their declaration patterns (for the methods and
    functions of Java, C and C#, every match whose name is not one of
    the excluded keywords). Imports are not deduplicated in any
    extractor: every match of the import pattern contributes its
    entries, in order. *)
Theorem secondary_scans_add_only_new_names (content : string) :
  let js := extractJavaScriptMetadata content in
  let exported := scanExports content in
  let all regex := map (fun m => cap m 1) (RegExp.execAll regex content) in
  let allTrimmed regex :=
    map (fun m => Str.trim (cap m 1)) (RegExp.execAll regex content) in
  let unless banned regex :=
    List.filter (fun x => negb (existsb (String.eqb x) banned)) (all regex) in
  ((∃ names, f_constants js = Some names ∧ List.NoDup names
              ∧ ∀ m, In m (RegExp.execAll Scan.JavaScript.constRegex content) →
                     In (cap m 1) names)
   ∧ (∃ names, f_functions js = Some names
               ∧ addsOnlyNew (x_functions exported) names)
   ∧ (∃ names, f_classes js = Some names
               ∧ addsOnlyNew (x_classes exported) names)
   ∧ (∃ names, f_interfaces js = Some names
               ∧ addsOnlyNew (x_interfaces exported) names)
   ∧ (∃ names, f_types js = Some names
               ∧ addsOnlyNew (x_types exported) names))
  ∧ (f_functions (extractPythonMetadata content)
     = Some (all Scan.Python.funcRegex)
     ∧ f_classes (extractPythonMetadata content)
       = Some (all Scan.Python.classRegex)
     ∧ f_constants (extractPythonMetadata content)
       = Some (all Scan.Python.constRegex)
     ∧ f_classes (extractJavaMetadata content)
       = Some (all Scan.Java.classRegex)
     ∧ f_interfaces (extractJavaMetadata content)
       = Some (all Scan.Java.interfaceRegex)
     ∧ f_functions (extractJavaMetadata content)
       = Some (unless ["class"; "interface"] Scan.Java.methodRegex)
     ∧ f_functions (extractCMetadata content)
       = Some (unless ["if"; "while"; "for"] Scan.C.funcRegex)
     ∧ f_constants (extractCMetadata content)
       = Some (all Scan.C.defineRegex)
     ∧ f_classes (extractCSharpMetadata content)
       = Some (all Scan.CSharp.classRegex)
     ∧ f_interfaces (extractCSharpMetadata content)
       = Some (all Scan.CSharp.interfaceRegex)
     ∧ f_functions (extractCSharpMetadata content)
       = Some (unless ["class"; "interface"] Scan.CSharp.methodRegex)
     ∧ f_functions (extractGoMetadata content)
       = Some (all Scan.Go.funcRegex)
     ∧ f_constants (extractGoMetadata content)
       = Some (all Scan.Go.constRegex)
     ∧ f_functions (extractRustMetadata content)
       = Some (all Scan.Rust.funcRegex)
     ∧ f_constants (extractRustMetadata content)
       = Some (all Scan.Rust.constRegex))
  ∧ (f_imports js
     = Some (all Scan.JavaScript.importRegex
             ++ all Scan.JavaScript.requireRegex)
     ∧ f_imports (extractPythonMetadata content)
       = Some (concat (map pythonImportsOf
                         (RegExp.execAll Scan.Python.importRegex content)))
     ∧ f_imports (extractJavaMetadata content)
       = Some (allTrimmed Scan.Java.importRegex)
     ∧ f_imports (extractCMetadata content) = Some (all Scan.C.importRegex)
     ∧ f_imports (extractCSharpMetadata content)
       = Some (allTrimmed Scan.CSharp.usingRegex)
     ∧ f_imports (extractGoMetadata content)
       = Some (concat (map goImportsOf
                         (RegExp.execAll Scan.Go.importRegex content)))
     ∧ f_imports (extractRustMetadata content)
       = Some (allTrimmed Scan.Rust.useRegex)).
Proof.
  intros js exported all allTrimmed unless.
  subst js exported all allTrimmed unless.
  unfold extractJavaScriptMetadata, extractPythonMetadata,
    extractJavaMetadata, extractCMetadata, extractCSharpMetadata,
    extractGoMetadata, extractRustMetadata; cbn [f_constants f_functions
    f_classes f_interfaces f_types f_imports].
  split; [|split].
  - repeat match goal with |- _ ∧ _ => split end;
      (eexists; split; [reflexivity|]).
    + split; [apply addsOnlyNew_nil, scanPushNew_addsOnlyNew|].
      intros m Hm. now apply scanPushNew_records.
    + eapply addsOnlyNew_trans; apply scanPushNew_addsOnlyNew.
    + apply scanPushNew_addsOnlyNew.
    + apply scanPushNew_addsOnlyNew.
    + apply scanPushNew_addsOnlyNew.
  - repeat match goal with |- _ ∧ _ => split end;
      rewrite ?scanPush_all, ?scanPushUnless_all; reflexivity.
  - repeat match goal with |- _ ∧ _ => split end;
      rewrite ?scanPush_all, ?scanPushTrim_all; try reflexivity.
    + f_equal. apply fold_appending.
      intros l m. unfold pythonImportStep, pythonImportsOf, push.
      destruct (filled m 1); [now rewrite <- List.app_assoc|reflexivity].
    + f_equal. apply fold_appending.
      intros l m. unfold goImportStep, goImportsOf, push.
      destruct (filled m 1); [reflexivity|].
      destruct (filled m 2); [reflexivity|now rewrite app_nil_r].
Qed.

End ExtractorFacts.

(* ===================================================================== *)
(** * Further properties of the program *)
(* ===================================================================== *)

(** ** The matcher *)

Module RegExpFacts.
Import RegExp RegExpNotions.

Lemma Cat_cons (r : regex) (rs : list regex) :
  rs ≠ [] → Cat (r :: rs) = Seq r (Cat rs).
Proof. destruct rs; [contradiction|reflexivity]. Qed.

Lemma matchRe_Star (greedy : bool) (r : regex) (k : mstate → option mstate)
  (st : mstate) :
  matchRe (Star greedy r) k st = iterate greedy r k (Str.len (ahead st)) st.
Proof. reflexivity. Qed.



Lemma matchAll_app (rs1 rs2 : list regex) (k : mstate → option mstate) :
  matchAll (rs1 ++ rs2) k = matchAll rs1 (matchAll rs2 k).
Proof. induction rs1 as [|r rs1 IH]; simpl; [reflexivity|now rewrite IH]. Qed.

(** A match consumes at least the least length of the expression: the
    continuation is entered that much further on in the input. *)
Lemma matchRe_consumes (r : regex) :
  ∀ (k : mstate → option mstate) (st e : mstate),
    matchRe r k st = Some e →
    ∃ st', k st' = Some e
           ∧ Str.len (ahead st') + minLen r ≤ Str.len (ahead st).
Proof.
  induction r as [|p|r1 IH1 r2 IH2|r1 IH1 r2 IH2|g r IH|n r IH| |];
    intros k st e; try rewrite matchRe_Star; simpl.
  - intros H. exists st. split; [assumption|lia].
  - destruct (ahead st) as [|c s] eqn:Ha; [discriminate|].
    destruct (p c); [|discriminate]. intros H.
    eexists. split; [exact H|]. simpl. unfold Str.len. simpl. lia.
  - intros H. apply IH1 in H as (st1 & H1 & L1).
    apply IH2 in H1 as (st2 & H2 & L2). exists st2. split; [assumption|lia].
  - destruct (matchRe r1 k st) as [e1|] eqn:E1.
    + intros H. inversion H; subst. apply IH1 in E1 as (st1 & H1 & L1).
      exists st1. split; [assumption|lia].
    + intros H. apply IH2 in H as (st2 & H2 & L2).
      exists st2. split; [assumption|lia].
  - generalize (Str.len (ahead st)) at 1. intros fuel. revert st e.
    induction fuel as [|fuel IHf]; intros st e; simpl.
    + intros H. exists st. split; [assumption|lia].
    + assert (Hagain : ∀ e0,
                matchRe r
                  (fun st' => if Str.len (ahead st') <? Str.len (ahead st)
                              then iterate g r k fuel st' else None) st
                = Some e0 →
                ∃ st', k st' = Some e0
                       ∧ Str.len (ahead st') + 0 ≤ Str.len (ahead st)).
      { intros e0 H. apply IH in H as (st1 & H1 & L1).
        destruct (Str.len (ahead st1) <? Str.len (ahead st)); [|discriminate].
        apply IHf in H1 as (st2 & H2 & L2). exists st2. split; [assumption|lia]. }
      destruct g.
      * destruct (matchRe r _ st) as [e1|] eqn:E1.
        -- intros H. inversion H; subst. now apply Hagain.
        -- intros H. exists st. split; [assumption|lia].
      * destruct (k st) as [e1|] eqn:E1.
        -- intros H. inversion H; subst. exists st. split; [assumption|lia].
        -- intros H. now apply Hagain.
  - intros H. apply IH in H as (st1 & H1 & L1).
    exists (capture n st st1). split; [assumption|]. simpl. lia.
  - destruct (before st) as [c|].
    + destruct (isLineTerminator c); [|discriminate].
      intros H. exists st. split; [assumption|lia].
    + intros H. exists st. split; [assumption|lia].
  - destruct (ahead st) as [|c s] eqn:Ha.
    + intros H. exists st. split; [assumption|]. rewrite Ha. lia.
    + destruct (isLineTerminator c); [|discriminate].
      intros H. exists st. split; [assumption|]. rewrite Ha. lia.
Qed.

(** An input shorter than the least length of an expression holds no
    match of it. *)
Lemma search_too_short (r : regex) (s : string) :
  ∀ prev, Str.len s < minLen r → search r prev s = None.
Proof.
  induction s as [|c s IH]; intros prev Hlen; simpl.
  - destruct (matchRe r Some (MState prev EmptyString [])) as [e|] eqn:E;
      [|reflexivity].
    apply matchRe_consumes in E as (st' & _ & L). simpl in L.
    unfold Str.len in *. simpl in *. lia.
  - destruct (matchRe r Some (MState prev (String c s) [])) as [e|] eqn:E.
    + apply matchRe_consumes in E as (st' & _ & L). simpl in L.
      unfold Str.len in *. simpl in *. lia.
    + apply IH. unfold Str.len in *. simpl in *. lia.
Qed.



End RegExpFacts.

(** ** The ignore matcher on directory patterns and plain patterns *)

Module IgnoreMore.
Import Indexer RegExp RegExpNotions IgnoreNotions RegExpFacts.

Lemma replaceStar_other (to : string) (a : ascii) (s : string) :
  Ascii.eqb a "*" = false →
  Str.replaceStar to (String a s) = String a (Str.replaceStar to s).
Proof.
  destruct a as [[] [] [] [] [] [] [] []]; intros H;
    first [reflexivity|discriminate H].
Qed.

Lemma replaceStarStar_other (to : string) (a : ascii) (s : string) :
  Ascii.eqb a "*" = false →
  Str.replaceStarStar to (String a s) = String a (Str.replaceStarStar to s).
Proof.
  destruct a as [[] [] [] [] [] [] [] []]; intros H;
    first [reflexivity|discriminate H].
Qed.

Lemma nameChar_split (c : ascii) :
  nameChar c = true →
  Ascii.eqb c "*" = false ∧ Ascii.eqb c "[" = false
  ∧ isSyntaxChar c = false ∧ isLineTerminator c = false.
Proof.
  unfold nameChar. rewrite !andb_true_iff, !negb_true_iff. tauto.
Qed.

Lemma dirName_cons (c : ascii) (d : string) :
  dirName (String c d) = true → nameChar c = true ∧ dirName d = true.
Proof. unfold dirName. simpl. now rewrite andb_true_iff. Qed.

(** The two replacements on the pattern [d/**]. *)
Lemma dirPattern_source (d : string) :
  dirName d = true →
  Str.replaceStar "[^/]*" (Str.replaceStarStar ".*" (d +:+ "/**"))
  = d +:+ "/.[^/]*".
Proof.
  induction d as [|c d IH]; intros Hd; [reflexivity|].
  apply dirName_cons in Hd as [Hc Hd].
  apply nameChar_split in Hc as (Hstar & _).
  change (String c d +:+ "/**") with (String c (d +:+ "/**")).
  rewrite replaceStarStar_other, replaceStar_other by assumption.
  now rewrite IH.
Qed.

Lemma dirPattern_has_double_star (d : string) :
  Str.includes "**" (d +:+ "/**") = true.
Proof.
  induction d as [|c d IH]; [reflexivity|].
  change (String c d +:+ "/**") with (String c (d +:+ "/**")).
  simpl Str.includes. rewrite IH. apply orb_true_r.
Qed.

Lemma parseLoop_name (d : string) :
  ∀ (acc : list regex) (rest : string),
    dirName d = true →
    parseLoop PNormal acc (d +:+ rest)
    = parseLoop PNormal
        (List.rev (map atomOf (list_ascii_of_string d)) ++ acc) rest.
Proof.
  induction d as [|c d IH]; intros acc rest Hd; [reflexivity|].
  apply dirName_cons in Hd as [Hc Hd].
  apply nameChar_split in Hc as (Hstar & Hbr & Hsyn & _).
  change (String c d +:+ rest) with (String c (d +:+ rest)).
  simpl parseLoop. rewrite Hbr, Hstar.
  simpl list_ascii_of_string. simpl map. simpl List.rev.
  rewrite <- List.app_assoc. simpl app.
  unfold atomOf at 2. destruct (Ascii.eqb c "."); [now apply IH|].
  rewrite Hsyn. now apply IH.
Qed.

(** The expression compiled for [d/**]: the characters of [d], the
    separator, one character of any kind, and a run of characters other
    than the separator. *)
Lemma dirPattern_compiled (d : string) :
  dirName d = true →
  parse (Str.replaceStar "[^/]*" (Str.replaceStarStar ".*" (d +:+ "/**")))
  = Some (Cat (compiledDirPattern d)).
Proof.
  intros Hd. rewrite dirPattern_source by assumption.
  unfold parse. rewrite parseLoop_name by assumption.
  simpl parseLoop. simpl option_map. unfold compiledDirPattern.
  rewrite app_nil_r. simpl List.rev. rewrite rev_involutive.
  now rewrite <- !List.app_assoc.
Qed.




Lemma minLen_compiled (d : string) :
  minLen (Cat (compiledDirPattern d)) = Str.len d + 2.
Proof.
  unfold compiledDirPattern. induction d as [|c d IH]; [reflexivity|].
  simpl list_ascii_of_string. simpl map. simpl app.
  rewrite Cat_cons by (destruct (map atomOf (list_ascii_of_string d));
                       discriminate).
  simpl minLen. rewrite IH. unfold atomOf, Str.len.
  destruct (Ascii.eqb c "."); simpl; lia.
Qed.

Lemma append_assoc (a b c : string) : (a +:+ b) +:+ c = a +:+ (b +:+ c).
Proof.
  induction a as [|x a IH]; [reflexivity|].
  change (String x ((a +:+ b) +:+ c) = String x (a +:+ (b +:+ c))).
  now rewrite IH.
Qed.




(** A pattern [d/**] does not exclude the path [d] itself: the entry of
    the directory passes the matcher, and the walk lists it. *)
Theorem dir_pattern_keeps_directory (d : string) (Hd : dirName d = true) :
  ignoredBy d (d +:+ "/**") = Ok false.
Proof.
  unfold ignoredBy.
  rewrite dirPattern_has_double_star, dirPattern_compiled by assumption.
  f_equal. unfold test. rewrite search_too_short; [reflexivity|].
  rewrite minLen_compiled. lia.
Qed.

Lemma dir_pattern_keeps_directory_witness :
  ignoredBy "node_modules" "node_modules/**" = Ok false.
Proof. apply (dir_pattern_keeps_directory "node_modules"). reflexivity. Defined.


Lemma ignoredBy_no_throw (p pattern message : string) :
  ignoredBy p pattern ≠ Err message.
Proof.
  unfold ignoredBy. destruct (Str.includes "**" pattern); [|discriminate].
  destruct (parse _); discriminate.
Qed.




Lemma startsWith_app (x s suf : string) :
  Str.startsWith x s = true → Str.startsWith x (s +:+ suf) = true.
Proof.
  revert s. induction x as [|a x IH]; intros s H; [reflexivity|].
  destruct s as [|b s]; [discriminate|]. simpl in *.
  apply andb_true_iff in H as [H1 H2]. rewrite H1. simpl. now apply IH.
Qed.

Lemma includes_suffix (x s suf : string) :
  Str.includes x s = true → Str.includes x (s +:+ suf) = true.
Proof.
  induction s as [|b s IHs]; intros H.
  - destruct x; [|discriminate]. destruct suf; reflexivity.
  - simpl in H. apply orb_true_iff in H as [H|H].
    + change (String b s +:+ suf) with (String b (s +:+ suf)).
      simpl Str.includes.
      change (String b (s +:+ suf)) with (String b s +:+ suf).
      rewrite (startsWith_app _ _ _ H). reflexivity.
    + change (String b s +:+ suf) with (String b (s +:+ suf)).
      simpl Str.includes. rewrite (IHs H). apply orb_true_r.
Qed.

Lemma includes_app (x s pre suf : string) :
  Str.includes x s = true → Str.includes x (pre +:+ s +:+ suf) = true.
Proof.
  intros H. induction pre as [|a pre IH].
  - change (Str.includes x (s +:+ suf) = true). now apply includes_suffix.
  - change (String a pre +:+ s +:+ suf) with (String a (pre +:+ s +:+ suf)).
    simpl Str.includes. rewrite IH. apply orb_true_r.
Qed.

(** Under patterns without a double star, a path that holds an excluded
    path is excluded: below an excluded directory everything is excluded,
    and so is every path that merely has the excluded text in it. *)
Theorem plain_patterns_exclude_extensions (cfg : config) (p pre suf : string)
  (Hplain : ∀ q, In q (ignorePatterns cfg) → Str.includes "**" q = false)
  (Hp : shouldIgnoreFile cfg p = Ok true) :
  shouldIgnoreFile cfg (pre +:+ p +:+ suf) = Ok true.
Proof.
  unfold shouldIgnoreFile in *.
  induction (ignorePatterns cfg) as [|q rest IH]; [discriminate|].
  simpl in *. unfold ignoredBy in *.
  rewrite (Hplain q (or_introl eq_refl)) in *. simpl in *.
  destruct (Str.includes (Str.replaceStar EmptyString q) p) eqn:E.
  - now rewrite (includes_app _ _ pre suf E).
  - destruct (Str.includes _ (pre +:+ p +:+ suf)); [reflexivity|].
    apply IH; auto.
Qed.

Lemma plain_patterns_exclude_extensions_witness :
  shouldIgnoreFile
    (Config "/project" "PROJECT_INDEX.json" ["*.min.js"; ".DS_Store"]
       defaultExtensions)
    "vendor/jquery.min.js.d/readme.js" = Ok true.
Proof.
  apply (plain_patterns_exclude_extensions _ "jquery.min.js" "vendor/"
           ".d/readme.js").
  - simpl. intros q [<-|[<-|[]]]; reflexivity.
  - reflexivity.
Defined.

End IgnoreMore.

(** ** The ignore file and the directory walk *)

Module WalkFacts.
Import Indexer WalkNotions.

(** The patterns of the constructor start with the built-in ones. What
    the ignore file adds is, for each line of the file that is not blank
    and does not start with the comment sign, the line trimmed, and
    nothing else: so never an empty pattern (which would exclude every
    path). A missing or unreadable ignore file adds nothing. *)
Theorem ignore_file_adds_no_empty_pattern (gitignore : option (result string)) :
  ∃ added,
    getDefaultIgnorePatterns gitignore = builtinIgnorePatterns ++ added
    ∧ (∀ p, In p added ↔
         ∃ content line,
           gitignore = Some (Ok content)
           ∧ In line (Str.split Str.newline content)
           ∧ p = Str.trim line
           ∧ Str.trim line ≠ EmptyString
           ∧ Str.startsWith "#" line = false)
    ∧ (∀ p, In p added → p ≠ EmptyString)
    ∧ ((∀ content, gitignore ≠ Some (Ok content)) → added = []).
Proof.
  unfold getDefaultIgnorePatterns.
  destruct gitignore as [[content|e|]|];
    try (exists []; rewrite app_nil_r;
         split; [reflexivity|];
         split; [intros p; split;
                 [intros []|intros (c & l & H & _); discriminate H]|];
         split; [intros p []|intros _; reflexivity]).
  eexists. split; [reflexivity|].
  assert (Hiff : ∀ p,
            In p (map Str.trim
                    (List.filter
                       (fun line => negb (Str.isEmpty (Str.trim line))
                                    && negb (Str.startsWith "#" line))
                       (Str.split Str.newline content)))
            ↔ ∃ content0 line,
                Some (Ok content) = Some (Ok content0)
                ∧ In line (Str.split Str.newline content0)
                ∧ p = Str.trim line
                ∧ Str.trim line ≠ EmptyString
                ∧ Str.startsWith "#" line = false).
  { intros p. split.
    - intros Hp. apply in_map_iff in Hp as (line & <- & Hline).
      apply filter_In in Hline as [Hin Hline].
      apply andb_true_iff in Hline as [Hne Hhash].
      apply negb_true_iff in Hne, Hhash.
      exists content, line. repeat split; auto.
      intros E. rewrite E in Hne. discriminate.
    - intros (content0 & line & Heq & Hin & -> & Hne & Hhash).
      inversion Heq; subst content0.
      apply in_map_iff. exists line. split; [reflexivity|].
      apply filter_In. split; [assumption|].
      rewrite Hhash. simpl. rewrite andb_true_r. apply negb_true_iff.
      destruct (Str.trim line); [contradiction|reflexivity]. }
  split; [exact Hiff|]. split.
  - intros p Hp. apply Hiff in Hp as (c & l & _ & _ & -> & Hne & _).
    exact Hne.
  - intros H. now destruct (H content).
Qed.

(** Induction on a directory tree, with the entries of a directory. *)
Lemma fsnode_induction (P : fsnode → Prop) :
  (∀ content, P (File content)) →
  (∀ error, P (BrokenFile error)) →
  (∀ entries, List.Forall (fun e => P (snd e)) entries → P (Directory entries)) →
  (∀ error, P (Unreadable error)) →
  P Special →
  ∀ n, P n.
Proof.
  intros HFile HBroken HDir HUnreadable HSpecial.
  fix IH 1. intros [content|error|entries|error|].
  - apply HFile.
  - apply HBroken.
  - apply HDir. induction entries as [|[name child] rest IHrest];
      constructor; [apply IH|apply IHrest].
  - apply HUnreadable.
  - apply HSpecial.
Qed.

Lemma scanDirectory_entries (cfg : config) (dir : string)
  (entries : list (string * fsnode)) :
  scanDirectory cfg dir (Directory entries) = scanEntries cfg dir entries [].
Proof. reflexivity. Qed.

Lemma scanDirectory_leaf (cfg : config) (dir : string) (d : fsnode) :
  (∀ entries, d ≠ Directory entries) → scanDirectory cfg dir d = Ok [].
Proof. destruct d; intros H; try reflexivity. now destruct (H entries). Qed.

(** The loop adds to the files it starts from; it never drops or reorders
    them. *)
Lemma scanEntries_accumulates (cfg : config) (dir : string)
  (entries : list (string * fsnode)) :
  ∀ files,
    scanEntries cfg dir entries files
    = (found ←r scanEntries cfg dir entries [];; Ok (files ++ found)).
Proof.
  induction entries as [|[name entry] rest IH]; intros files; simpl.
  - now rewrite app_nil_r.
  - destruct (shouldIgnoreFile cfg (Path.join dir name)) as [[|]|e|]; simpl;
      try reflexivity; [apply IH|].
    assert (Hpush : ∀ extra,
              scanEntries cfg dir rest (files ++ extra)
              = (found ←r scanEntries cfg dir rest ([] ++ extra);;
                 Ok (files ++ found))).
    { intros extra. rewrite (IH (files ++ extra)), (IH ([] ++ extra)).
      destruct (scanEntries cfg dir rest []); simpl; try reflexivity.
      now rewrite <- List.app_assoc. }
    destruct entry as [content|error|entries|error|]; try apply IH;
      try (destruct (isSupportedFile cfg (Path.join dir name));
           [apply Hpush|apply IH]).
    + destruct (scanDirectory cfg (Path.join dir name) (Directory entries));
        simpl; try reflexivity. apply Hpush.
    + simpl. apply (Hpush []).
Qed.

Lemma scanEntries_app (cfg : config) (dir : string)
  (es1 es2 : list (string * fsnode)) :
  ∀ files,
    scanEntries cfg dir (es1 ++ es2) files
    = (found ←r scanEntries cfg dir es1 files;; scanEntries cfg dir es2 found).
Proof.
  induction es1 as [|[name entry] rest IH]; intros files; simpl;
    [reflexivity|].
  destruct (shouldIgnoreFile cfg (Path.join dir name)) as [[|]|e|]; simpl;
    try reflexivity; [apply IH|].
  destruct entry as [content|error|entries|error|]; try apply IH;
    try (destruct (isSupportedFile cfg (Path.join dir name)); apply IH).
  destruct (scanDirectory cfg (Path.join dir name) (Directory entries));
    simpl; try reflexivity. apply IH.
Qed.

(** The walk of a directory is the walk of its first entries followed by
    the walk of the others: the files come in the order of the entries,
    and no entry affects what another contributes. *)
Theorem walk_composes (cfg : config) (dir : string)
  (es1 es2 : list (string * fsnode)) :
  scanDirectory cfg dir (Directory (es1 ++ es2))
  = (first ←r scanDirectory cfg dir (Directory es1);;
     second ←r scanDirectory cfg dir (Directory es2);;
     Ok (first ++ second)).
Proof.
  rewrite !scanDirectory_entries, scanEntries_app.
  destruct (scanEntries cfg dir es1 []) as [first|e|]; simpl;
    try reflexivity.
  apply scanEntries_accumulates.
Qed.

(** An entry that is passed over adds nothing to the walk and does not
    stop it: the entries before and after it are listed as if it were not
    there. So it is with an excluded directory, whatever lies below it,
    and with a directory whose listing fails. *)
Theorem passed_over_entry_adds_nothing (cfg : config) (dir name : string)
  (entry : fsnode) (es1 es2 : list (string * fsnode))
  (Hpassed : passedOver cfg dir name entry) :
  scanDirectory cfg dir (Directory (es1 ++ (name, entry) :: es2))
  = scanDirectory cfg dir (Directory (es1 ++ es2)).
Proof.
  rewrite !scanDirectory_entries, !scanEntries_app.
  destruct (scanEntries cfg dir es1 []) as [first|e|]; simpl;
    try reflexivity.
  destruct Hpassed as [Hig|[Hig Hkind]]; rewrite Hig; simpl;
    [reflexivity|].
  destruct entry as [content|error|entries|error|];
    try contradiction; try (now rewrite Hkind); try reflexivity.
  simpl. now rewrite app_nil_r.
Qed.

Lemma passed_over_entry_adds_nothing_witness :
  let cfg := Config "/project" "PROJECT_INDEX.json" builtinIgnorePatterns
               defaultExtensions in
  let before := [("a.js", File "x"); ("lib", Directory [("b.js", File "y")])] in
  let after := [("c.ts", File "z")] in
  scanDirectory cfg "src"
    (Directory (before ++ ("locked", Unreadable "EACCES") :: after))
  = scanDirectory cfg "src" (Directory (before ++ after))
  ∧ scanDirectory cfg "src" (Directory (before ++ after))
    = Ok ["src/a.js"; "src/lib/b.js"; "src/c.ts"].
Proof.
  intros cfg before after. split.
  - apply (passed_over_entry_adds_nothing cfg "src" "locked"
             (Unreadable "EACCES") before after).
    right. split; [vm_compute; reflexivity|exact I].
  - vm_compute. reflexivity.
Defined.

Lemma shouldIgnoreFile_no_throw (cfg : config) (p message : string) :
  shouldIgnoreFile cfg p ≠ Err message.
Proof.
  unfold shouldIgnoreFile. induction (ignorePatterns cfg) as [|q rest IH];
    simpl; [discriminate|].
  pose proof (IgnoreMore.ignoredBy_no_throw p q) as Hq.
  destruct (ignoredBy p q) as [[|]|e|]; simpl; try discriminate; auto.
Qed.

(** The invariant of the walk, by induction on the directory tree. *)
Lemma scanDirectory_invariant (cfg : config) (d : fsnode) :
  ∀ dir,
    (∀ message, scanDirectory cfg dir d ≠ Err message)
    ∧ ∀ files, scanDirectory cfg dir d = Ok files →
        ∀ f, In f files →
             isSupportedFile cfg f = true ∧ shouldIgnoreFile cfg f = Ok false.
Proof.
  induction d as [content|error|entries IH|error|] using fsnode_induction;
    intros dir;
    try (split; [discriminate|];
         intros files H f Hf; inversion H; subst; contradiction).
  rewrite scanDirectory_entries.
  assert (Hloop : ∀ files0,
            (∀ f, In f files0 →
                  isSupportedFile cfg f = true
                  ∧ shouldIgnoreFile cfg f = Ok false) →
            (∀ message, scanEntries cfg dir entries files0 ≠ Err message)
            ∧ ∀ files, scanEntries cfg dir entries files0 = Ok files →
                ∀ f, In f files →
                     isSupportedFile cfg f = true
                     ∧ shouldIgnoreFile cfg f = Ok false).
  { induction entries as [|[name entry] rest IHrest]; intros files0 H0.
    - simpl. split; [discriminate|]. intros files H. inversion H; subst.
      exact H0.
    - inversion IH as [|? ? Hentry Hrest]; subst. simpl in Hentry.
      specialize (IHrest Hrest). simpl.
      pose proof (shouldIgnoreFile_no_throw cfg (Path.join dir name)) as Hne.
      destruct (shouldIgnoreFile cfg (Path.join dir name)) as [[|]|e|] eqn:Hig;
        simpl; [now apply IHrest| |now destruct (Hne e)|
                split; [discriminate|intros files H; discriminate]].
      assert (Hfile : ∀ files1,
                (if isSupportedFile cfg (Path.join dir name)
                 then scanEntries cfg dir rest (files0 ++ [Path.join dir name])
                 else scanEntries cfg dir rest files0) = files1 →
                (∀ message, files1 ≠ Err message)
                ∧ ∀ files, files1 = Ok files →
                    ∀ f, In f files →
                         isSupportedFile cfg f = true
                         ∧ shouldIgnoreFile cfg f = Ok false).
      { intros files1 <-.
        destruct (isSupportedFile cfg (Path.join dir name)) eqn:Hsup;
          [|now apply IHrest].
        apply IHrest. intros f Hf. apply in_app_or in Hf as [Hf|[<-|[]]];
          auto. }
      destruct entry as [content|error|entries|error|];
        try (now apply (Hfile _ eq_refl)); try (now apply IHrest).
      + destruct (Hentry (Path.join dir name)) as [Hsub1 Hsub2].
        destruct (scanDirectory cfg (Path.join dir name) (Directory entries))
          as [found|e|] eqn:Hfound; simpl.
        * apply IHrest. intros f Hf. apply in_app_or in Hf as [Hf|Hf]; auto.
          now apply (Hsub2 found eq_refl).
        * now destruct (Hsub1 e).
        * split; [discriminate|intros files H; discriminate].
      + simpl. apply IHrest. intros f Hf. rewrite app_nil_r in Hf. auto. }
  apply Hloop. intros f [].
Qed.

(** What the walk returns is made of supported files that the matcher
    does not exclude; and the walk throws nothing, whatever directories
    cannot be listed. *)
Theorem discovered_files_supported_and_kept (cfg : config) (d : fsnode) :
  ∀ dir,
    (∀ message, scanDirectory cfg dir d ≠ Err message)
    ∧ ∀ files, scanDirectory cfg dir d = Ok files →
        ∀ f, In f files →
             isSupportedFile cfg f = true ∧ shouldIgnoreFile cfg f = Ok false.
Proof. apply scanDirectory_invariant. Qed.

(** When the empty extension is not supported, no discovered path is an
    array index or the prototype accessor: each has a dot in its base
    name. *)
Lemma discovered_keys_ordinary (cfg : config) (d : fsnode) (dir : string)
  (files : list string) :
  existsb (String.eqb EmptyString) (supportedExtensions cfg) = false →
  scanDirectory cfg dir d = Ok files →
  forallb ordinaryKey files = true.
Proof.
  intros Hext Hscan. apply forallb_forall. intros f Hf.
  destruct (proj2 (scanDirectory_invariant cfg d dir) files Hscan f Hf)
    as [Hsup _].
  apply BuildFacts.extension_ordinaryKey. intros Hempty.
  unfold isSupportedFile in Hsup. rewrite Hempty in Hsup.
  assert (E : existsb (String.eqb EmptyString) (supportedExtensions cfg)
              = true).
  { clear -Hsup. induction (supportedExtensions cfg) as [|x l IH];
      simpl in *; [discriminate|].
    apply orb_true_iff in Hsup as [H|H]; apply orb_true_iff; auto. }
  congruence.
Qed.

Lemma discovered_files_supported_and_kept_witness :
  let cfg := Config "/project" "PROJECT_INDEX.json" builtinIgnorePatterns
               defaultExtensions in
  isSupportedFile cfg "src/a.ts" = true
  ∧ shouldIgnoreFile cfg "src/a.ts" = Ok false.
Proof.
  intros cfg.
  apply (proj2 (discovered_files_supported_and_kept cfg
                  (Directory [("src", Directory [("a.ts", File "x");
                                                  ("notes.txt", File "n")])])
                  EmptyString) ["src/a.ts"]);
    [vm_compute; reflexivity|now left].
Defined.

End WalkFacts.

(** ** The extractors *)

Module ExtractMore.
Import Indexer ExtractNotions.

Lemma split_length (sep : ascii) (s : string) :
  length (Str.split sep s) = S (countChar sep s).
Proof.
  induction s as [|c s IH]; [reflexivity|]. simpl.
  destruct (Ascii.eqb c sep); simpl; [now rewrite IH|].
  destruct (Str.split sep s); simpl in *; [discriminate|assumption].
Qed.

(** A file of an extension that the [switch] does not name (the supported
    [.php], [.rb], [.kt], [.swift], [.vue], [.svelte] among them) gets a
    record with its size, empty declaration lists, and a line count that
    is the number of line feeds plus one: 1 for an empty file. A file of
    a named extension gets no line count. *)
Theorem unhandled_extension_gets_line_count (root : fsnode)
  (filePath content : string)
  (Hread : readFileSync root filePath = Ok content) :
  (existsb (String.eqb (Path.extname filePath)) handledExtensions = false →
   extractFileMetadata root programExtractors filePath
   = Ok (Extracted
           (MkFileRecord filePath (Path.extname filePath) (Str.len content)
              [] [] [] [] [] [] []
              (Some (S (countChar Str.newline content)))
              (Some (RegExp.test Scan.Generic.blockOrLineComment content
                     || RegExp.test Scan.Generic.hashComment content)))))
  ∧ (existsb (String.eqb (Path.extname filePath)) handledExtensions = true →
     ∃ r, extractFileMetadata root programExtractors filePath
          = Ok (Extracted r)
          ∧ lineCount r = None ∧ hasComments r = None
          ∧ size r = Str.len content).
Proof.
  unfold extractFileMetadata, programExtractors. rewrite Hread. simpl.
  unfold extractByExtension, handledExtensions.
  generalize (Path.extname filePath). intros ext. simpl existsb.
  split.
  - intros H. repeat (apply orb_false_iff in H as [? H]).
    repeat match goal with
           | E : String.eqb ext _ = false |- _ => rewrite E; clear E
           end.
    simpl. unfold spread, extractGenericMetadata. simpl.
    now rewrite split_length.
  - intros H.
    repeat match goal with
           | |- context [String.eqb ext ?s] =>
               destruct (String.eqb ext s) eqn:?; simpl
           end;
      try discriminate H;
      (eexists; split; [reflexivity|]; repeat split).
Qed.

Lemma unhandled_extension_gets_line_count_witness :
  extractFileMetadata (Directory [("index.php", File EmptyString)])
    programExtractors "index.php"
  = Ok (Extracted
          (MkFileRecord "index.php" ".php" 0 [] [] [] [] [] [] []
             (Some 1) (Some false))).
Proof.
  apply (proj1 (unhandled_extension_gets_line_count
                  (Directory [("index.php", File EmptyString)])
                  "index.php" EmptyString eq_refl)).
  reflexivity.
Defined.

(** *** The export scan *)

Lemma exportStep_files_one (acc : exportScan) (m : RegExp.matchObj) :
  filedExports (exportStep acc m)
  = filedExports acc + (if namedExport m then 1 else 0).
Proof.
  unfold exportStep, namedExport, filled, filedExports.
  destruct (Str.isEmpty (cap m 1)) eqn:E1, (Str.isEmpty (cap m 2)) eqn:E2,
    (Str.isEmpty (cap m 3)) eqn:E3, (Str.isEmpty (cap m 4)) eqn:E4,
    (Str.isEmpty (cap m 5)) eqn:E5, (Str.isEmpty (cap m 6)) eqn:E6,
    (Str.isEmpty (cap m 7)) eqn:E7;
    simpl; rewrite ?E1, ?E2, ?E3, ?E4, ?E5, ?E6, ?E7; simpl;
    unfold push; rewrite ?length_app; simpl; lia.
Qed.

(** Every match of the export pattern that yields a name is filed in
    exactly one of the five lists of the export scan. *)
Theorem export_scan_files_each_name_once (content : string) :
  filedExports (scanExports content)
  = length (List.filter namedExport
              (RegExp.execAll Scan.JavaScript.exportRegex content)).
Proof.
  unfold scanExports.
  generalize (RegExp.execAll Scan.JavaScript.exportRegex content).
  intros ms.
  assert (H : ∀ acc, filedExports (fold_left exportStep ms acc)
                     = filedExports acc + length (List.filter namedExport ms)).
  { induction ms as [|m ms IH]; intros acc; simpl; [lia|].
    rewrite IH, exportStep_files_one.
    destruct (namedExport m); simpl; lia. }
  apply (H (ExportScan [] [] [] [] [])).
Qed.

(** *** Names that are never recorded, and names that are never lost *)

Lemma scanPushUnless_never (banned : list string) (regex : RegExp.regex)
  (i : nat) (content : string) (x : string) :
  In x banned → ¬ In x (scanPushUnless banned regex i content []).
Proof.
  intros Hb Hin. rewrite ExtractorFacts.scanPushUnless_all in Hin.
  simpl in Hin. apply filter_In in Hin as [_ Hin].
  apply negb_true_iff in Hin.
  assert (E : existsb (String.eqb x) banned = true)
    by now apply ExtractorFacts.existsb_eqb_in.
  congruence.
Qed.

(** The method and function lists never hold the keywords that the
    extractors screen out: [class] and [interface] for Java and C#, [if],
    [while] and [for] for C. *)
Theorem screened_keywords_never_recorded (content : string) :
  (∀ names, f_functions (extractJavaMetadata content) = Some names →
            ¬ In "class" names ∧ ¬ In "interface" names)
  ∧ (∀ names, f_functions (extractCSharpMetadata content) = Some names →
              ¬ In "class" names ∧ ¬ In "interface" names)
  ∧ (∀ names, f_functions (extractCMetadata content) = Some names →
              ¬ In "if" names ∧ ¬ In "while" names ∧ ¬ In "for" names).
Proof.
  unfold extractJavaMetadata, extractCSharpMetadata, extractCMetadata;
    cbn [f_functions].
  split; [|split]; intros names H; inversion H; subst;
    repeat split; apply scanPushUnless_never; simpl; tauto.
Qed.

Lemma screened_keywords_never_recorded_witness :
  ¬ In "if" ["main"] ∧ ¬ In "while" ["main"] ∧ ¬ In "for" ["main"].
Proof.
  apply (proj2 (proj2 (screened_keywords_never_recorded
                         "int main(void) { if (x) { } }"))).
  vm_compute. reflexivity.
Defined.

(** No import recorded by the Go extractor is an empty string. *)
Theorem go_imports_never_empty (content : string) (imports : list string)
  (x : string)
  (Himports : f_imports (extractGoMetadata content) = Some imports)
  (Hx : In x imports) :
  x ≠ EmptyString.
Proof.
  unfold extractGoMetadata in Himports. cbn [f_imports] in Himports.
  inversion Himports; subst imports. clear Himports.
  rewrite (ExtractorFacts.fold_appending goImportStep goImportsOf) in Hx.
  - apply in_concat in Hx as (l & Hl & Hx).
    apply in_map_iff in Hl as (m & <- & _).
    unfold goImportsOf in Hx. destruct (filled m 1).
    + apply filter_In in Hx as [_ Hx]. apply negb_true_iff in Hx.
      intros ->. discriminate.
    + destruct (filled m 2) eqn:E; [|contradiction].
      destruct Hx as [<-|[]]. unfold filled in E.
      apply negb_true_iff in E. intros H. rewrite H in E. discriminate.
  - intros l m. unfold goImportStep, goImportsOf, push.
    destruct (filled m 1); [reflexivity|].
    destruct (filled m 2); [reflexivity|now rewrite app_nil_r].
Qed.

Lemma go_imports_never_empty_witness : "fmt" ≠ EmptyString.
Proof.
  apply (go_imports_never_empty "import (
  fmt

  os
)" ["fmt"; "os"] "fmt"); [vm_compute; reflexivity|now left].
Defined.

Lemma scanPushNew_keeps (regex : RegExp.regex) (i : nat) (content : string)
  (l : list string) (x : string) :
  In x l → In x (scanPushNew regex i content l).
Proof.
  intros H.
  destruct (ExtractorFacts.scanPushNew_addsOnlyNew regex i content l)
    as (added & -> & _).
  apply in_or_app. now left.
Qed.

(** The guard against repetitions loses no name: in the JavaScript and
    TypeScript extractor every name that the export scan files under
    functions, classes, interfaces or types, and every name that a later
    scan captures, is in its category in the end. *)
Theorem guarded_scans_lose_no_name (content : string) :
  let js := extractJavaScriptMetadata content in
  let exported := scanExports content in
  let captured regex name :=
    ∃ m, In m (RegExp.execAll regex content) ∧ name = cap m 1 in
  ∃ fs cs ifs ts ks,
    f_functions js = Some fs ∧ f_classes js = Some cs
    ∧ f_interfaces js = Some ifs ∧ f_types js = Some ts
    ∧ f_constants js = Some ks
    ∧ (∀ x, In x (x_functions exported)
            ∨ captured Scan.JavaScript.funcRegex x
            ∨ captured Scan.JavaScript.arrowFuncRegex x → In x fs)
    ∧ (∀ x, In x (x_classes exported)
            ∨ captured Scan.JavaScript.classRegex x → In x cs)
    ∧ (∀ x, In x (x_interfaces exported)
            ∨ captured Scan.JavaScript.interfaceRegex x → In x ifs)
    ∧ (∀ x, In x (x_types exported)
            ∨ captured Scan.JavaScript.typeRegex x → In x ts)
    ∧ (∀ x, captured Scan.JavaScript.constRegex x → In x ks).
Proof.
  intros js exported captured. subst js exported captured.
  unfold extractJavaScriptMetadata;
    cbn [f_functions f_classes f_interfaces f_types f_constants].
  do 5 eexists. do 5 (split; [reflexivity|]).
  repeat split.
  - intros x [H|[(m & Hm & ->)|(m & Hm & ->)]].
    + now do 2 apply scanPushNew_keeps.
    + apply scanPushNew_keeps. now apply ExtractorFacts.scanPushNew_records.
    + now apply ExtractorFacts.scanPushNew_records.
  - intros x [H|(m & Hm & ->)];
      [now apply scanPushNew_keeps
      |now apply ExtractorFacts.scanPushNew_records].
  - intros x [H|(m & Hm & ->)];
      [now apply scanPushNew_keeps
      |now apply ExtractorFacts.scanPushNew_records].
  - intros x [H|(m & Hm & ->)];
      [now apply scanPushNew_keeps
      |now apply ExtractorFacts.scanPushNew_records].
  - intros x (m & Hm & ->). now apply ExtractorFacts.scanPushNew_records.
Qed.

End ExtractMore.

(** ** The summary and the build *)

Module BuildMore.
Import Indexer ExtractNotions.

Lemma countedFiles_step (ext : string) (m : gmap string nat) :
  countedFiles (countExtension ext m) = S (countedFiles m).
Proof.
  unfold countExtension, countedFiles.
  assert (Hcomm : ∀ z1 z2 y : nat, z1 + (z2 + y) = z2 + (z1 + y))
    by (intros; lia).
  destruct (m !! extensionKey ext) as [n|] eqn:E; simpl.
  - rewrite <- (insert_delete_eq m).
    rewrite map_fold_insert_L;
      [|intros; apply Hcomm|apply lookup_delete_eq].
    rewrite (map_fold_delete_L _ _ (extensionKey ext) n m);
      [lia|intros; apply Hcomm|assumption].
  - rewrite map_fold_insert_L; [lia|intros; apply Hcomm|assumption].
Qed.

(** The counts of [filesByExtension] add up to the number of entries of
    the mapping, the records of failed extractions included. *)
Theorem extension_counts_add_up (fileMetadata : object metadata) :
  countedFiles (filesByExtension (generateSummary fileMetadata))
  = length fileMetadata.
Proof.
  unfold generateSummary.
  assert (H : ∀ acc,
            countedFiles (filesByExtension
                            (fst (fold_left summaryStep fileMetadata acc)))
            = countedFiles (filesByExtension (fst acc))
              + length fileMetadata).
  { induction fileMetadata as [|entry fm IH]; intros acc; simpl; [lia|].
    rewrite IH, SummaryFacts.summaryStep_ext, countedFiles_step. lia. }
  specialize (H (MkSummary 0 0 0 0 ∅ [], [])).
  destruct (fold_left summaryStep fileMetadata (MkSummary 0 0 0 0 ∅ [], []))
    as [s fs]. simpl in *. rewrite H.
  unfold countedFiles. now rewrite map_fold_empty.
Qed.

Lemma extract_total (root : fsnode)
  (extractors : string → string → result fragment) (filePath : string) :
  (∀ ext content, extractors ext content ≠ Unmodelled) →
  ∃ m, extractFileMetadata root extractors filePath = Ok m.
Proof.
  intros Hmodelled. unfold extractFileMetadata.
  pose proof (BuildFacts.readFileSync_modelled root filePath) as Hread.
  destruct (readFileSync root filePath) as [content|e|]; simpl;
    [|eauto|contradiction].
  pose proof (Hmodelled (Path.extname filePath) content) as Hscan.
  destruct (extractors (Path.extname filePath) content) as [frag|e|];
    simpl; [eauto|eauto|contradiction].
Qed.

(** A project in which the walk finds no file is indexed all the same:
    the document has no file, an empty tree, an empty mapping and a
    summary of zeros. *)
Theorem empty_project_is_indexed (cfg : config) (root : fsnode)
  (extractors : string → string → result fragment)
  (writeFileSync : string → result unit) (now : string)
  (Hnone : scanDirectory cfg EmptyString root = Ok [])
  (Hwrite : writeFileSync (outputFile cfg) = Ok tt) :
  generateIndex cfg root extractors writeFileSync now
  = Ok (MkIndexDocument now (rootDir cfg) 0 (Dir []) []
          (MkSummary 0 0 0 0 ∅ [])).
Proof.
  unfold generateIndex. rewrite Hnone. simpl. now rewrite Hwrite.
Qed.

Lemma empty_project_is_indexed_witness :
  let cfg := Config "/project" "PROJECT_INDEX.json" builtinIgnorePatterns
               defaultExtensions in
  generateIndex cfg
    (Directory [("README.md", File "notes");
                ("node_modules", Directory [("m.js", File "x")])])
    programExtractors (fun _ => Ok tt) "t"
  = Ok (MkIndexDocument "t" "/project" 0 (Dir []) [] (MkSummary 0 0 0 0 ∅ [])).
Proof.
  intros cfg. apply empty_project_is_indexed; vm_compute; reflexivity.
Defined.

(** What is fatal to a build: an exception of the tree builder, and an
    exception of the write of the output, come out of [generateIndex]
    with their message, and no document is returned. *)
Theorem tree_and_write_failures_are_fatal (cfg : config) (root : fsnode)
  (extractors : string → string → result fragment)
  (writeFileSync : string → result unit) (now : string)
  (discovered : list string) (message : string)
  (Hscan : scanDirectory cfg EmptyString root = Ok discovered)
  (Hmodelled : ∀ ext content, extractors ext content ≠ Unmodelled) :
  (buildFileTree discovered = Err message →
   generateIndex cfg root extractors writeFileSync now = Err message)
  ∧ (∀ tree, buildFileTree discovered = Ok tree →
       writeFileSync (outputFile cfg) = Err message →
       generateIndex cfg root extractors writeFileSync now = Err message).
Proof.
  unfold generateIndex. rewrite Hscan. simpl. split.
  - intros ->. reflexivity.
  - intros tree -> Hwrite. simpl.
    destruct (BuildFacts.processFiles_total root extractors discovered
                (fun f _ => extract_total root extractors f Hmodelled) [])
      as [fm ->].
    simpl. now rewrite Hwrite.
Qed.

Lemma tree_and_write_failures_are_fatal_witness :
  let cfg := Config "/project" "PROJECT_INDEX.json" builtinIgnorePatterns
               defaultExtensions in
  generateIndex cfg (Directory [("a.js", File "x")]) programExtractors
    (fun _ => Err "EROFS: read-only file system") "t"
  = Err "EROFS: read-only file system".
Proof.
  intros cfg.
  apply (proj2 (tree_and_write_failures_are_fatal cfg
                  (Directory [("a.js", File "x")]) programExtractors
                  (fun _ => Err "EROFS: read-only file system") "t"
                  ["a.js"] "EROFS: read-only file system" eq_refl
                  (fun _ _ H => ltac:(discriminate H)))
           (Dir [("a.js", FileMarker)])); reflexivity.
Defined.

(** *** The mapping of the files *)

(** When the walk lists no file twice, and either the empty extension is
    not supported or no discovered path is an array index or [__proto__],
    the mapping [files] of the document has one entry per discovered
    file, in discovery order, filed under the path that its record
    carries, and [totalFiles] is the number of its entries. *)
Theorem files_mapping_lists_discovered (cfg : config) (root : fsnode)
  (extractors : string → string → result fragment)
  (writeFileSync : string → result unit) (now : string)
  (doc : IndexDocument) (discovered : list string)
  (Hbuild : generateIndex cfg root extractors writeFileSync now = Ok doc)
  (Hscan : scanDirectory cfg EmptyString root = Ok discovered)
  (Hdistinct : List.NoDup discovered)
  (Hkeys : existsb (String.eqb EmptyString) (supportedExtensions cfg) = false
           ∨ forallb ordinaryKey discovered = true) :
  map fst (files doc) = discovered
  ∧ map (fun e => metadataPath (snd e)) (files doc) = discovered
  ∧ totalFiles doc = length (files doc).
Proof.
  assert (Hord : forallb ordinaryKey discovered = true).
  { destruct Hkeys as [Hext|H]; [|exact H].
    exact (WalkFacts.discovered_keys_ordinary cfg root EmptyString discovered
             Hext Hscan). }
  pose proof (BuildFacts.files_in_discovery_order cfg root extractors
                writeFileSync now doc discovered Hbuild Hscan Hdistinct Hord)
    as Hkeys'.
  destruct (BuildFacts.generateIndex_returns _ _ _ _ _ _ Hbuild)
    as (found & tree & fm & Hscan' & Htree & Hfm & ->).
  rewrite Hscan in Hscan'. inversion Hscan'; subst found. simpl in *.
  split; [exact Hkeys'|]. split.
  - rewrite <- Hkeys'. apply map_ext_in. intros [p m] Hin. simpl.
    destruct (BuildFacts.processFiles_entries root extractors discovered []
                fm Hfm p m Hin) as [[_ Hex]|[]].
    now apply (BuildFacts.extractFileMetadata_path root extractors).
  - rewrite <- Hkeys' at 1. now rewrite length_map.
Qed.

Lemma files_mapping_lists_discovered_witness :
  let cfg := Config "/project" "PROJECT_INDEX.json" builtinIgnorePatterns
               defaultExtensions in
  let root := Directory [("b.py", File "import os");
                         ("a.js", BrokenFile "EACCES")] in
  ∃ doc,
    generateIndex cfg root programExtractors (fun _ => Ok tt) "t" = Ok doc
    ∧ map fst (files doc) = ["b.py"; "a.js"].
Proof.
  intros cfg root.
  destruct (generateIndex cfg root programExtractors (fun _ => Ok tt) "t")
    as [doc| |] eqn:Hdoc; try (vm_compute in Hdoc; discriminate).
  exists doc. split; [reflexivity|].
  apply (files_mapping_lists_discovered cfg root programExtractors
           (fun _ => Ok tt) "t" doc ["b.py"; "a.js"] Hdoc eq_refl).
  - repeat constructor; simpl; intuition discriminate.
  - left. reflexivity.
Defined.

(** With the empty extension supported, paths that are array indices
    are listed first in the mapping, in ascending numeric order, and the
    others follow in discovery order. *)
Lemma array_index_paths_listed_first :
  let cfg := Config "/project" "PROJECT_INDEX.json" builtinIgnorePatterns
               [EmptyString] in
  let root := Directory [("10", File "x"); ("2", File "x"); ("9", File "x");
                         ("b", File "x")] in
  ∃ doc,
    generateIndex cfg root programExtractors (fun _ => Ok tt) "t" = Ok doc
    ∧ scanDirectory cfg EmptyString root = Ok ["10"; "2"; "9"; "b"]
    ∧ map fst (files doc) = ["2"; "9"; "10"; "b"].
Proof. vm_compute. eexists. repeat split. Qed.

End BuildMore.

(** ** The tree of the files of a directory tree *)

Module TreeMore.
Import Indexer TreeFacts.

Lemma at_path_marker_dir (q : list string) (child : node) :
  q ≠ [] → at_path q child = Some FileMarker → ∃ sub, child = Dir sub.
Proof.
  destruct q as [|b q]; [contradiction|]. intros _.
  destruct child as [|sub]; [discriminate|eauto].
Qed.

(** Inserting a path leaves the marker of every path that neither leads
    to it nor goes through it. *)
Lemma insertPath_keeps_marker (p : list string) :
  ∀ (q : list string) (current tree' : object node),
    forallb plainName p = true →
    insertPath p current = Ok tree' →
    incomparable p q →
    at_path q (Dir current) = Some FileMarker →
    at_path q (Dir tree') = Some FileMarker.
Proof.
  induction p as [|a p' IH]; intros q current tree' Hplain Hins [Hpq Hqp] Hq.
  { exfalso. apply Hpq. exists q. reflexivity. }
  destruct q as [|b q']; [discriminate|].
  simpl in Hplain. apply andb_true_iff in Hplain as [Ha Hrest].
  apply plainName_split in Ha as [Hproto Hmeth].
  rewrite at_path_step in Hq |- *.
  destruct (String.eqb a b) eqn:Eab.
  - apply String.eqb_eq in Eab. subst b.
    destruct p' as [|a' p''].
    { exfalso. apply Hpq. exists q'. reflexivity. }
    rewrite insertPath_step in Hins.
    destruct (own a current) as [child|] eqn:Hown; [|discriminate].
    destruct q' as [|b' q''].
    { simpl in Hq. inversion Hq; subst child.
      now apply onString_not_ok in Hins. }
    destruct (at_path_marker_dir (b' :: q'') child ltac:(discriminate) Hq)
      as [sub ->].
    destruct (insertPath (a' :: p'') sub) as [sub'| |] eqn:Hsub;
      simpl in Hins; try discriminate.
    inversion Hins; subst tree'. rewrite own_assign_eq by assumption.
    eapply (IH (b' :: q'') sub sub'); eauto.
    split; intros [k Hk].
    + apply Hpq. exists k. simpl. now rewrite Hk.
    + apply Hqp. exists k. simpl. now rewrite Hk.
  - apply String.eqb_neq in Eab.
    assert (Hsame : own b tree' = own b current).
    { destruct p' as [|a' p''].
      - simpl in Hins. rewrite Hproto in Hins. inversion Hins; subst.
        now apply own_assign_ne.
      - rewrite insertPath_step in Hins.
        destruct (own a current) as [[|sub]|] eqn:Hown.
        + now apply onString_not_ok in Hins.
        + destruct (insertPath (a' :: p'') sub) as [sub'| |];
            simpl in Hins; try discriminate.
          inversion Hins; subst. now apply own_assign_ne.
        + rewrite Hproto, Hmeth in Hins.
          destruct (insertPath (a' :: p'') []) as [sub'| |];
            simpl in Hins; try discriminate.
          inversion Hins; subst. now apply own_assign_ne. }
    now rewrite Hsame.
Qed.

Lemma incomparable_sym (p q : list string) :
  incomparable p q → incomparable q p.
Proof. intros [H1 H2]. now split. Qed.

Lemma insertAll_marks (files : list string) :
  ∀ tree tree' : object node,
    List.Forall (fun f => forallb plainName (Path.segments f) = true) files →
    prefixFree (map Path.segments files) →
    insertAll files tree = Ok tree' →
    (∀ f, In f files →
          at_path (Path.segments f) (Dir tree') = Some FileMarker)
    ∧ (∀ q, List.Forall (fun f => incomparable (Path.segments f) q) files →
            at_path q (Dir tree) = Some FileMarker →
            at_path q (Dir tree') = Some FileMarker).
Proof.
  induction files as [|f rest IH]; intros tree tree' Hplain Hfree Hall.
  - simpl in Hall. inversion Hall; subst. split; [intros f []|auto].
  - inversion Hplain as [|? ? Hpf Hprest]; subst.
    destruct Hfree as [Hinc Hfree]. simpl in Hall.
    destruct (insertPath (Path.segments f) tree) as [t1| |] eqn:Hins;
      simpl in Hall; try discriminate.
    destruct (IH t1 tree' Hprest Hfree Hall) as [Hin Hkeep]. split.
    + intros g [<-|Hg]; [|auto].
      apply Hkeep.
      * rewrite List.Forall_forall in *. intros h Hh.
        apply incomparable_sym, Hinc. now apply in_map.
      * eapply insertPath_marks_file; eauto. apply segments_nonempty.
    + intros q Hq Hat. inversion Hq as [|? ? Hfq Hrq]; subst.
      apply Hkeep; [assumption|].
      eapply insertPath_keeps_marker; eauto.
Qed.

(** For files of which none leads to or through another, and whose
    segments read no inherited property, every file of the list is a file
    marker of the tree, at the place its path names. *)
Theorem every_file_is_a_marker (files : list string) (tree : node)
  (Hplain : List.Forall
              (fun f => forallb plainName (Path.segments f) = true) files)
  (Hfree : prefixFree (map Path.segments files))
  (Htree : buildFileTree files = Ok tree) :
  ∀ f, In f files → at_path (Path.segments f) tree = Some FileMarker.
Proof.
  unfold buildFileTree in Htree.
  destruct (insertAll files []) as [t| |] eqn:Hall; simpl in Htree;
    try discriminate.
  inversion Htree; subst tree.
  apply (insertAll_marks files [] t Hplain Hfree Hall).
Qed.

Lemma src_files_facts :
  List.Forall (fun f => forallb plainName (Path.segments f) = true)
    ["src/util.ts"; "src/index.ts"; "main.py"]
  ∧ prefixFree (map Path.segments ["src/util.ts"; "src/index.ts"; "main.py"]).
Proof.
  split.
  - repeat constructor.
  - simpl. repeat split; repeat constructor;
      intros [k Hk]; simpl in Hk; try discriminate; inversion Hk.
Qed.

Lemma every_file_is_a_marker_witness :
  at_path ["src"; "index.ts"]
    (Dir [("src", Dir [("util.ts", FileMarker); ("index.ts", FileMarker)]);
          ("main.py", FileMarker)])
  = Some FileMarker.
Proof.
  apply (every_file_is_a_marker ["src/util.ts"; "src/index.ts"; "main.py"]
           _ (proj1 src_files_facts) (proj2 src_files_facts) eq_refl
           "src/index.ts").
  simpl. tauto.
Defined.

(** The same files give a tree with one marker each. *)
Lemma buildFileTree_counts_files_witness :
  ∃ tree,
    buildFileTree ["src/util.ts"; "src/index.ts"; "main.py"] = Ok tree
    ∧ countFiles tree = 3.
Proof.
  apply (buildFileTree_counts_files ["src/util.ts"; "src/index.ts"; "main.py"]
           (proj1 src_files_facts) (proj2 src_files_facts)).
Defined.

End TreeMore.

(** ** The scheduler on any stream of events *)

Module WatcherMore.
Import Watcher WatcherNotions.

Section Stream.

Variable tie : bool.
Variable db : jsval.
Variable d : nat.
Variable base : list nat.
Hypothesis Hdelay : timeoutDelay db = Ok d.

Local Arguments timeoutDelay : simpl never.

Lemma deliver_from_idle (t : nat) (s : state) :
  idle s → debounceMs s = db → builds s = base →
  ∃ s', deliver tie t s = Ok s' ∧ waiting db d base t 0 s'.
Proof using Hdelay.
  destruct s as [db' rt ir ts nh bs]. unfold idle; simpl.
  intros [-> ->] -> ->.
  unfold deliver, advance, scheduleRebuild; simpl.
  destruct rt; simpl; rewrite Hdelay; simpl;
    (eexists; split; [reflexivity|]);
    unfold waiting; simpl; repeat split; eauto; exists []; simpl; auto.
Qed.

Lemma deliver_while_waiting (prev n t : nat) (s : state) :
  waiting db d base prev n s →
  ∃ s', deliver tie t s = Ok s' ∧ waiting db d base t (S n) s'.
Proof using Hdelay.
  destruct s as [db' rt ir ts nh bs]. unfold waiting; simpl.
  intros (-> & -> & (h & -> & ->) & new & -> & Hlen).
  unfold deliver, advance, dueBefore; simpl.
  destruct (if tie then prev + d <=? t else prev + d <? t); simpl;
    unfold scheduleRebuild, clearTimeout; simpl;
    rewrite ?Nat.eqb_refl; simpl; rewrite Hdelay; simpl;
    (eexists; split; [reflexivity|]);
    unfold waiting; simpl; repeat split; eauto;
    first [exists ((prev + d) :: new); simpl; split; [reflexivity|lia]
          |exists new; simpl; split; [reflexivity|lia]].
Qed.

Lemma run_while_waiting (events : list nat) :
  ∀ (prev n : nat) (s : state),
    waiting db d base prev n s →
    ∃ s', run tie events s = Ok s'
          ∧ waiting db d base (List.last events prev) (n + length events) s'.
Proof using Hdelay.
  induction events as [|t rest IH]; intros prev n s Hw.
  - exists s. simpl. rewrite Nat.add_0_r. auto.
  - destruct (deliver_while_waiting prev n t s Hw) as (s1 & Hdel & Hw1).
    destruct (IH t (S n) s1 Hw1) as (s' & Hrun & Hw').
    exists s'. split; [simpl run; rewrite Hdel; exact Hrun|].
    rewrite WatcherFacts.last_cons. simpl length.
    replace (n + S (length rest)) with (S n + length rest) by lia.
    exact Hw'.
Qed.

End Stream.

(** On any stream of change events delivered to the idle scheduler,
    however they are spaced: at most one timer is armed at the end of the
    stream (and so after each of its events), there are never more
    rebuilds than events, and when there is an event the latest rebuild
    comes one delay after the last event. *)
Theorem rebuilds_bounded_by_events (tie : bool) (d : nat) (s : state)
  (events : list nat)
  (Hdelay : timeoutDelay (debounceMs s) = Ok d)
  (Hidle : idle s) :
  ∃ s' new,
    run tie events s = Ok s'
    ∧ length (timers s') ≤ 1
    ∧ rebuildLog tie events s = Ok (new ++ builds s)
    ∧ length new ≤ length events
    ∧ (events ≠ [] → ∃ earlier, new = (List.last events 0 + d) :: earlier).
Proof.
  destruct events as [|first rest].
  - exists s, []. unfold rebuildLog. simpl.
    destruct Hidle as [_ Hno]. unfold settle. rewrite Hno. simpl.
    repeat split; auto. intros H. contradiction.
  - destruct (deliver_from_idle tie (debounceMs s) d (builds s) Hdelay
                first s Hidle eq_refl eq_refl) as (s1 & Hdel & Hw1).
    destruct (run_while_waiting tie (debounceMs s) d (builds s) Hdelay
                rest first 0 s1 Hw1) as (s' & Hrun & Hw').
    destruct s' as [db' rt ir ts nh bs].
    destruct Hw' as (Hir & Hdb & (h & Hts & Hrt) & new & Hbs & Hlen).
    simpl in *. subst.
    exists (State (debounceMs s) (Some h) false
              [(h, List.last rest first + d)] nh (new ++ builds s)),
           ((List.last rest first + d) :: new).
    unfold rebuildLog. simpl run. rewrite Hdel. simpl. rewrite Hrun. simpl.
    repeat split; auto; [lia|].
    intros _. exists new. f_equal. f_equal. symmetry.
    apply WatcherFacts.last_cons.
Qed.

Lemma rebuilds_bounded_by_events_witness :
  ∃ s' new,
    run false [5; 300; 20; 21] (construct (Options JNaN)) = Ok s'
    ∧ length (timers s') ≤ 1
    ∧ rebuildLog false [5; 300; 20; 21] (construct (Options JNaN))
      = Ok (new ++ [])
    ∧ length new ≤ 4.
Proof.
  destruct (rebuilds_bounded_by_events false 1000
              (construct (Options JNaN)) [5; 300; 20; 21] eq_refl
              (conj eq_refl eq_refl)) as (s' & new & H1 & H2 & H3 & H4 & _).
  exists s', new. auto.
Defined.

End WatcherMore.

(** ** The command line *)

Module CliFacts.
Import Indexer Cli.

Lemma pairs_induction {A : Type} (P : list A → Prop) :
  P [] → (∀ x, P [x]) → (∀ x y l, P l → P (x :: y :: l)) → ∀ l, P l.
Proof.
  intros Hnil Hone Hstep.
  fix IH 1. intros [|x [|y l]].
  - exact Hnil.
  - apply Hone.
  - apply Hstep. apply IH.
Qed.

Lemma argStep_with_value (key value : string) (o : options) :
  ∃ o', argStep key (Some value) o = Ok o'.
Proof.
  unfold argStep.
  destruct (String.eqb key "--root"); [eauto|].
  destruct (String.eqb key "--output"); [eauto|].
  destruct (String.eqb key "--extensions"); eauto.
Qed.

(** The parsing of the arguments throws in one case only: when the
    arguments are odd in number and the last one is [--extensions], whose
    value is then missing. A missing value of [--root] or [--output], and
    any unknown argument, pass. *)
Theorem arguments_throw_only_on_missing_extensions (args : list string) :
  ∀ o,
    (∃ message, parseArgs args o = Err message)
    ↔ (Nat.odd (length args) = true
       ∧ List.last args EmptyString = "--extensions").
Proof.
  induction args as [|key|key value rest IH] using pairs_induction; intros o.
  - simpl. split; [intros [m H]; discriminate|intros [H _]; discriminate].
  - simpl. unfold argStep.
    destruct (String.eqb key "--root") eqn:E1.
    { apply String.eqb_eq in E1. subst.
      split; [intros [m H]; discriminate|intros [_ H]; discriminate]. }
    destruct (String.eqb key "--output") eqn:E2.
    { apply String.eqb_eq in E2. subst.
      split; [intros [m H]; discriminate|intros [_ H]; discriminate]. }
    destruct (String.eqb key "--extensions") eqn:E3.
    + apply String.eqb_eq in E3. split; [auto|eauto].
    + apply String.eqb_neq in E3.
      split; [intros [m H]; discriminate|intros [_ H]; contradiction].
  - change (parseArgs (key :: value :: rest) o)
      with (o' ←r argStep key (Some value) o;; parseArgs rest o').
    destruct (argStep_with_value key value o) as [o' ->]. simpl rbind.
    rewrite (IH o'). simpl length. rewrite Nat.odd_succ_succ.
    destruct rest as [|x rest]; [|reflexivity].
    simpl. split; intros [H _]; discriminate.
Qed.

End CliFacts.
